(** * Word-embedding comparison and vector-search notebooks

    A shallow embedding of the Python code cells of the two notebooks
    (1-Word_Embeddings_Comparison.ipynb and the vector-search notebook
    that follows it in the same source file).

    Modelling conventions.
    - A Python [str] is a [string]; a character is an 8-bit code point
      (the Latin-1 range, which contains the notebook's ASCII corpus).
      [str.lower], [str.split] and the ordering of strings are the
      CPython built-ins as they behave on that range.
    - A Python [set] is a [gset], a [dict] a [gmap], a [list] a [list].
    - [np.eye] produces IEEE binary64 numbers: the kernel's [float].
    - Calls into gensim, transformers, openai, faiss and NumPy's random
      generator are parameters of the model (Section variables); the
      notebook's own control and data flow around them is embedded.
    - Module [Text] holds the tokenizer once more, over any alphabet,
      for what depends on characters beyond the 8-bit range. *)

From Stdlib Require Import Strings.String Strings.Ascii NArith.NArith.
From Stdlib Require Import Floats.PrimFloat.
From stdpp Require Import gmap strings list sorting.

Local Open Scope string_scope.
Local Open Scope list_scope.

(** ** Built-in string operations *)

Module PyStr.

(** [c.isspace()] on code points 0..255: TAB..CR, FS..US, SPACE, NEL, NBSP. *)
Definition isspace (c : ascii) : bool :=
  let n := N_of_ascii c in
  ((9 <=? n) && (n <=? 13) || (28 <=? n) && (n <=? 32)
   || (n =? 133) || (n =? 160))%N.

(** [c.isupper()] on code points 0..255: A..Z, and the Latin-1 capitals
    0xC0..0xDE without the multiplication sign 0xD7. *)
Definition isupper (c : ascii) : bool :=
  let n := N_of_ascii c in
  ((65 <=? n) && (n <=? 90)
   || (192 <=? n) && (n <=? 222) && negb (n =? 215))%N.

(** [c.lower()]: every capital of the range has its small letter 32 above. *)
Definition lower_char (c : ascii) : ascii :=
  if isupper c then ascii_of_N (N_of_ascii c + 32) else c.

(** [s.lower()] *)
Fixpoint lower (s : string) : string :=
  match s with
  | EmptyString => EmptyString
  | String c s' => String (lower_char c) (lower s')
  end.

(** [s.split()] with no separator: one scan from the left; [cur] holds
    the characters of the word being read, most recent first.  Runs of
    whitespace separate words and produce no empty word. *)
Fixpoint split_scan (cur : list ascii) (s : string) : list string :=
  match s with
  | EmptyString =>
      match cur with
      | [] => []
      | _ :: _ => [string_of_list_ascii (rev cur)]
      end
  | String c s' =>
      if isspace c then
        match cur with
        | [] => split_scan [] s'
        | _ :: _ => string_of_list_ascii (rev cur) :: split_scan [] s'
        end
      else split_scan (c :: cur) s'
  end.

Definition split (s : string) : list string := split_scan [] s.

(** Ordering of [str] values ([<=], used by [sorted]): lexicographic on
    code points, a proper prefix first. *)
Definition le (a b : string) : Prop := String.le a b.

#[global] Instance le_dec : RelDecision le.
Proof. unfold le. apply _. Defined.

(** [a < b] *)
Definition lt (a b : string) : Prop := le a b /\ a <> b.

(** Predicates on strings used in the statements below. *)
Fixpoint all_chars (p : ascii -> bool) (s : string) : bool :=
  match s with
  | EmptyString => true
  | String c s' => p c && all_chars p s'
  end.

Definition is_whitespace (s : string) : bool := all_chars isspace s.
Definition no_whitespace (s : string) : bool :=
  all_chars (fun c => negb (isspace c)) s.
Definition no_uppercase (s : string) : bool :=
  all_chars (fun c => negb (isupper c)) s.

(** What the text after a word looks like: nothing, or a whitespace
    character first. *)
Definition starts_blank (s : string) : Prop :=
  match s with
  | EmptyString => True
  | String c _ => isspace c = true
  end.

(** The contract's "whitespace-split words" of a text, stated without
    reference to the scan: the text is whitespace, then a maximal
    nonempty run of non-whitespace characters (a word), and so on; the
    words are listed in the order they occur. *)
Inductive words_of : string -> list string -> Prop :=
  | words_none sp :
      is_whitespace sp = true -> words_of sp []
  | words_next sp w rest ws :
      is_whitespace sp = true ->
      w <> "" -> no_whitespace w = true ->
      starts_blank rest -> words_of rest ws ->
      words_of (sp +:+ w +:+ rest) (w :: ws).

(** What every token is claimed to be: nonempty, free of whitespace and
    of capitals, and unchanged by another [lower()]. *)
Definition clean_token (w : string) : Prop :=
  w <> "" /\ no_whitespace w = true /\ no_uppercase w = true /\ lower w = w.

End PyStr.

(** ** Cell 2: the corpus and its tokenisation; cell 3: the vocabulary *)

Module Tokenizer.

(** The notebook's corpus. *)
Definition sentences : list string :=
  [ "I love natural language processing";
    "Deep learning is a key technology for AI";
    "Word embeddings capture semantic meaning";
    "OpenAI embeddings are state-of-the-art";
    "Machine learning is evolving rapidly" ].

(** The two-sentence corpus of the end-to-end scenario: the first two
    sentences of the notebook's corpus. *)
Definition scenario_corpus : list string :=
  [ "I love natural language processing";
    "Deep learning is a key technology for AI" ].

(** [[sentence.lower().split() for sentence in sentences]] *)
Definition tokenized_sentences (sentences : list string) : list (list string) :=
  map (fun sentence => PyStr.split (PyStr.lower sentence)) sentences.

(** [set(word for sentence in tokenized_sentences for word in sentence)] *)
Definition word_set (tokenized : list (list string)) : gset string :=
  list_to_set (concat tokenized).

(** [sorted(xs)] for an iterable read out as the list [xs]. *)
Definition sorted (xs : list string) : list string := merge_sort PyStr.le xs.

(** [vocabulary = sorted(set(...))] *)
Definition vocabulary (tokenized : list (list string)) : list string :=
  sorted (elements (word_set tokenized)).

End Tokenizer.

(** ** Cell 3: one-hot vectors *)

Module OneHot.

Local Open Scope float_scope.

(** [np.eye(n)]: the n-by-n identity matrix of binary64 numbers. *)
Definition eye (n : nat) : list (list float) :=
  map (fun r => map (fun c => if Nat.eqb r c then 1 else 0) (seq 0 n)) (seq 0 n).

(** The dict comprehension
    [{word: np.eye(len(vocabulary))[i] for i, word in enumerate(vocabulary)}]:
    entries are written left to right, a later one replacing an earlier
    one with the same key; indexing the matrix out of range raises
    IndexError, which aborts the comprehension ([None]). *)
Fixpoint one_hot_from (n i : nat) (words : list string)
    (acc : gmap string (list float)) : option (gmap string (list float)) :=
  match words with
  | [] => Some acc
  | word :: rest =>
      match eye n !! i with
      | Some row => one_hot_from n (S i) rest (<[word := row]> acc)
      | None => None
      end
  end.

Definition one_hot_vectors (vocabulary : list string)
    : option (gmap string (list float)) :=
  one_hot_from (length vocabulary) 0 vocabulary ∅.

(** The dot product of two vectors, accumulated from the left. *)
Definition dot (u v : list float) : float :=
  fold_left (fun acc xy => acc + fst xy * snd xy) (zip u v) 0.

(** The standard basis vector of length [n] with its one at [i]. *)
Definition basis (n i : nat) : list float :=
  map (fun c => if Nat.eqb i c then 1 else 0) (seq 0 n).

(** The accumulation of [dot] for two basis vectors, restricted to the
    columns [a .. a+m-1] and started from [acc]. *)
Definition dot_from (i j a m : nat) (acc : float) : float :=
  fold_left (fun acc xy => acc + fst xy * snd xy)
    (zip (map (fun c => if Nat.eqb i c then 1 else 0) (seq a m))
         (map (fun c => if Nat.eqb j c then 1 else 0) (seq a m))) acc.

End OneHot.

(** ** Python values shared by the two notebooks *)

(** An uncaught Python exception.  [Raised cls msg] is an exception
    raised inside an external library, by class name and message. *)
Inductive exception : Type :=
  | KeyError (key : string)
  | IndexError
  | Raised (cls msg : string).

(** The outcome of a call that may raise. *)
Definition result (A : Type) : Type := (exception + A)%type.

Definition result_bind {A B} (r : result A) (k : A -> result B) : result B :=
  match r with
  | inl e => inl e
  | inr a => k a
  end.

(** [xs[i]] on a Python list, for a non-negative [i]. *)
Definition list_getitem {A} (xs : list A) (i : nat) : result A :=
  match xs !! i with
  | Some x => inr x
  | None => inl IndexError
  end.

(** [table[key]] on a Python dict keyed by strings. *)
Definition dict_getitem {A} (table : gmap string A) (key : string) : result A :=
  match table !! key with
  | Some x => inr x
  | None => inl (KeyError key)
  end.

(** A two-dimensional ndarray: its shape and its rows. *)
Record ndarray (A : Type) : Type := NDArray {
  nrows : nat;
  ncols : nat;
  rows : list (list A)
}.
Arguments NDArray {A}.
Arguments nrows {A}.
Arguments ncols {A}.
Arguments rows {A}.

(** ** External libraries, as interfaces *)

(** NumPy's global generator and the cast to binary32.
    [np_random_seed s] is the state [np.random.seed(s)] installs (for
    [0 <= s < 2^32]); [random_sample] is one draw from the stream. *)
Class NumPy : Type := {
  rng : Type;
  np_random_seed : N -> rng;
  random_sample : rng -> float * rng;
  f32 : Type;
  astype_f32 : float -> f32
}.

(** gensim: [Word2Vec(sentences=, vector_size=, window=, min_count=,
    workers=, sg=)] trains a model or raises; [model.wv[word]] is the
    word's vector or raises. *)
Class Gensim `{NumPy} : Type := {
  w2v_model : Type;
  Word2Vec : list (list string) -> nat -> nat -> nat -> nat -> nat ->
             result w2v_model;
  wv_getitem : w2v_model -> string -> result (list f32)
}.

(** transformers: [pipeline(task, model=, tokenizer=)] loads a model or
    raises; calling it on a text gives, per input, per token, a vector. *)
Class Transformers : Type := {
  hf_pipeline : Type;
  pipeline : string -> string -> string -> result hf_pipeline;
  pipeline_call : hf_pipeline -> string -> result (list (list (list float)))
}.

(** openai: the Azure client constructor and [client.embeddings.create];
    [response.data] is a list of objects with an [embedding] each. *)
Class OpenAI : Type := {
  azure_client : Type;
  AzureOpenAI : option string -> string -> option string -> result azure_client;
  embeddings_create : azure_client -> string -> string ->
                      result (list (list float))
}.

(** faiss: the HNSW index constructor, [index.add] (the index after the
    call) and [index.search] (distances, then labels). *)
Class Faiss `{NumPy} : Type := {
  faiss_index : Type;
  IndexHNSWFlat : nat -> nat -> result faiss_index;
  index_add : faiss_index -> ndarray f32 -> result faiss_index;
  index_search : faiss_index -> ndarray f32 -> nat ->
                 result (ndarray f32 * ndarray Z)
}.

(** ** Drawing from the generator *)

Module NpRandom.
Section Draws.
Context `{NP : NumPy}.

(** [n] consecutive draws. *)
Fixpoint draw (n : nat) (st : rng) : list float * rng :=
  match n with
  | O => ([], st)
  | S n' =>
      let (x, st1) := random_sample st in
      let (xs, st2) := draw n' st1 in
      (x :: xs, st2)
  end.

(** [r] rows of [c] draws each, filled row by row. *)
Fixpoint draw_rows (r c : nat) (st : rng) : list (list float) * rng :=
  match r with
  | O => ([], st)
  | S r' =>
      let (row, st1) := draw c st in
      let (rest, st2) := draw_rows r' c st1 in
      (row :: rest, st2)
  end.

(** [np.random.random((r, c))] *)
Definition random (shape : nat * nat) (st : rng) : ndarray float * rng :=
  let (data, st') := draw_rows (fst shape) (snd shape) st in
  (NDArray (fst shape) (snd shape) data, st').

(** [np.random.rand(n)] *)
Definition rand (n : nat) (st : rng) : list float * rng := draw n st.

(** [a.astype('float32')] *)
Definition astype (a : ndarray float) : ndarray f32 :=
  NDArray (nrows a) (ncols a) (map (map astype_f32) (rows a)).

(** The generator after [n] draws. *)
Definition skip (n : nat) (st : rng) : rng := snd (draw n st).

End Draws.
End NpRandom.

(** ** The vector-search notebook *)

Module VectorSearch.
Section Cell.
Context `{NP : NumPy} `{FA : !Faiss}.

(** What the cell leaves behind: the two generated arrays and, unless
    the index library raised, the two printed matrices. *)
Record run : Type := Run {
  database : ndarray f32;
  queries : ndarray f32;
  printed : result (ndarray Z * ndarray f32)
}.

(** The code cell, with its constants [d], [nb], [nq], the seed and [k]
    as parameters (the notebook has 128, 10000, 5, 1234 and 4). *)
Definition cell (seed : N) (d nb nq k : nat) : run :=
  let st0 := np_random_seed seed in
  let (database, st1) := NpRandom.random (nb, d) st0 in
  let database := NpRandom.astype database in
  let (queries, st2) := NpRandom.random (nq, d) st1 in
  let queries := NpRandom.astype queries in
  Run database queries
    (result_bind (IndexHNSWFlat d 32) (fun index =>
     result_bind (index_add index database) (fun index =>
     result_bind (index_search index queries k) (fun '(distances, indices) =>
     inr (indices, distances))))).

Definition notebook_cell : run := cell 1234 128 (100 * 100) 5 4.

End Cell.
End VectorSearch.

(** ** The word-embedding notebook *)

Module Embeddings.

(** A value handed to [print]. *)
Inductive value `{NumPy} : Type :=
  | Words (ws : list string)
  | Floats (v : list float)
  | Floats32 (v : list f32)
  | Shape (dims : list nat).

Section Notebook.
Context `{NP : NumPy} `{GE : !Gensim} `{TR : Transformers} `{OA : OpenAI}.

(** What a run can see and change outside its own variables: the global
    generator, the process environment (after [%dotenv]), and the
    lines printed so far, oldest first. *)
Record world : Type := World {
  generator : rng;
  environ : gmap string string;
  stdout : list (string * value)
}.

(** A piece of the notebook: it runs in a world, and ends with a value
    or with an uncaught exception; either way the world is as the
    piece left it. *)
Definition Py (A : Type) : Type := world -> result A * world.

Definition ret {A} (a : A) : Py A := fun w => (inr a, w).

Definition bind {A B} (c : Py A) (k : A -> Py B) : Py B :=
  fun w =>
    match c w with
    | (inl e, w') => (inl e, w')
    | (inr a, w') => k a w'
    end.

(** A call whose outcome does not depend on the world. *)
Definition call {A} (r : result A) : Py A := fun w => (r, w).

(** [print(label, v)] *)
Definition print (label : string) (v : value) : Py unit :=
  fun w => (inr tt, World (generator w) (environ w) (stdout w ++ [(label, v)])).

(** [os.getenv(name)] *)
Definition getenv (name : string) : Py (option string) :=
  fun w => (inr (environ w !! name), w).

(** A computation on the global generator. *)
Definition with_generator {A} (f : rng -> A * rng) : Py A :=
  fun w => let (a, st) := f (generator w) in
           (inr a, World st (environ w) (stdout w)).

Notation "'do' x <- c ;; k" := (bind c (fun x => k))
  (at level 10, x name, c at level 99, k at level 200).

(** Cell 3: one-hot encoding. *)
Definition cell_one_hot (tokenized : list (list string))
    : Py (list string * gmap string (list float)) :=
  let vocabulary := Tokenizer.vocabulary tokenized in
  do one_hot_vectors <- call (match OneHot.one_hot_vectors vocabulary with
                           | Some table => inr table
                           | None => inl IndexError
                           end) ;;
  do _ <- print "Vocabulary:" (Words vocabulary) ;;
  do example <- call (dict_getitem one_hot_vectors "learning") ;;
  do _ <- print "One-Hot Encoding Example:" (Floats example) ;;
  ret (vocabulary, one_hot_vectors).

(** [{word: word2vec_model.wv[word] for word in vocabulary}] *)
Fixpoint word2vec_table (model : w2v_model) (words : list string)
    (acc : gmap string (list f32)) : result (gmap string (list f32)) :=
  match words with
  | [] => inr acc
  | word :: rest =>
      result_bind (wv_getitem model word) (fun v =>
      word2vec_table model rest (<[word := v]> acc))
  end.

(** The first two statements of cell 4. *)
Definition word2vec_vectors (tokenized : list (list string))
    (vocabulary : list string) : result (gmap string (list f32)) :=
  result_bind (Word2Vec tokenized 10 2 1 1 1) (fun word2vec_model =>
  word2vec_table word2vec_model vocabulary ∅).

(** Cell 4: Word2Vec. *)
Definition cell_word2vec (tokenized : list (list string))
    (vocabulary : list string) : Py (gmap string (list f32)) :=
  do word2vec_vectors <- call (word2vec_vectors tokenized vocabulary) ;;
  do example <- call (dict_getitem word2vec_vectors "learning") ;;
  do _ <- print "Word2Vec Embedding Example (learning):" (Floats32 example) ;;
  ret word2vec_vectors.

(** [{word: np.random.rand(10) for word in vocabulary}] *)
Fixpoint glove_table (words : list string) (acc : gmap string (list float))
    (st : rng) : gmap string (list float) * rng :=
  match words with
  | [] => (acc, st)
  | word :: rest =>
      let (v, st') := NpRandom.rand 10 st in
      glove_table rest (<[word := v]> acc) st'
  end.

Definition glove_vectors (vocabulary : list string) (st : rng)
    : gmap string (list float) * rng :=
  glove_table vocabulary ∅ st.

(** Cell 5: the GloVe placeholder. *)
Definition cell_glove (vocabulary : list string)
    : Py (gmap string (list float)) :=
  do glove_vectors <- with_generator (glove_vectors vocabulary) ;;
  do example <- call (dict_getitem glove_vectors "learning") ;;
  do _ <- print "GloVe Embedding Example (learning):" (Floats example) ;;
  ret glove_vectors.

(** Cell 6: BERT. *)
Definition cell_bert : Py unit :=
  do bert_pipeline <- call (pipeline "feature-extraction"
                           "bert-base-uncased" "bert-base-uncased") ;;
  do outputs <- call (pipeline_call bert_pipeline
                     "Deep learning is a key technology for AI") ;;
  do bert_embedding <- call (list_getitem outputs 0) ;;
  do token <- call (list_getitem bert_embedding 1) ;;
  print "BERT Embedding Shape (first word):" (Shape [length token]).

(** Cell 8: the hosted embedding. *)
Definition cell_openai : Py unit :=
  do api_key <- getenv "AZURE_OPENAI_API_KEY" ;;
  do azure_endpoint <- getenv "AZURE_OPENAI_ENDPOINT" ;;
  do client <- call (AzureOpenAI api_key "2024-02-01" azure_endpoint) ;;
  do data <- call (embeddings_create client
                  "Deep learning is a key technology for AI"
                  "demo-cosmos-rag-emb") ;;
  do openai_embedding <- call (list_getitem data 0) ;;
  print "OpenAI Embedding Example (simulated):" (Floats openai_embedding).





End Notebook.
End Embeddings.

(** ** The contract assumed of gensim *)

(** A trained model holds, for every word that occurs in the training
    sentences, and does so at least [min_count] times, a vector of
    [vector_size] numbers. *)
Definition gensim_contract `{NP : NumPy} `{GE : !Gensim} : Prop :=
  forall sentences vector_size window min_count workers sg model word,
    Word2Vec sentences vector_size window min_count workers sg = inr model ->
    word ∈ concat sentences ->
    (min_count <= count_occ String.eq_dec (concat sentences) word)%nat ->
    exists v, wv_getitem model word = inr v /\ length v = vector_size.

(** ** Small stand-ins for the libraries

    They serve to run the notebooks' code on concrete inputs. *)

Module Standin.

(** A generator that counts its draws and alternates two values. *)
Definition numpy : NumPy := {|
  rng := nat;
  np_random_seed := N.to_nat;
  random_sample := fun st => (if Nat.even st then 0.25%float else 0.75%float, S st);
  f32 := float;
  astype_f32 := fun x => x
|}.

(** A trainer that keeps the words frequent enough and gives each the
    zero vector; like gensim it refuses to train on no words at all. *)
Definition gensim : @Gensim numpy :=
  @Build_Gensim numpy (nat * list string)%type
    (fun sentences vector_size window min_count workers sg =>
       let words := concat sentences in
       let kept :=
         filter (fun w => min_count <= count_occ String.eq_dec words w)%nat words in
       match kept with
       | [] => inl (Raised "RuntimeError"
                      "you must first build vocabulary before training the model")
       | _ :: _ => inr (vector_size, kept)
       end)
    (fun model word =>
       if decide (word ∈ snd model)
       then inr (replicate (fst model) 0%float)
       else inl (KeyError word)).


(** A model that gives every text three tokens of two numbers each. *)
Definition transformers_up : Transformers := {|
  hf_pipeline := unit;
  pipeline := fun task model tokenizer => inr tt;
  pipeline_call := fun p text =>
    inr [[[0%float; 0%float]; [1%float; 0%float]; [0%float; 1%float]]]
|}.

(** A client that needs both credentials and then answers every request
    with one embedding. *)
Definition openai : OpenAI := {|
  azure_client := unit;
  AzureOpenAI := fun api_key api_version azure_endpoint =>
    match api_key, azure_endpoint with
    | Some _, Some _ => inr tt
    | _, _ => inl (Raised "OpenAIError" "Missing credentials")
    end;
  embeddings_create := fun client input model => inr [[0.5%float; 0.25%float]]
|}.

(** An index that accepts every call, keeps the rows it is given and
    answers every query with [k] times the label -1 at distance 0. *)
Definition faiss : @Faiss numpy :=
  @Build_Faiss numpy (list (list float))
    (fun d M => inr [])
    (fun index x => inr (index ++ rows x))
    (fun index x k =>
       inr (NDArray (nrows x) k (replicate (nrows x) (replicate k 0%float)),
            NDArray (nrows x) k (replicate (nrows x) (replicate k (-1)%Z)))).

(** A world with both credentials set and nothing printed. *)
Definition world_with_credentials
    : @Embeddings.world numpy :=
  @Embeddings.World numpy 0%nat
    (<["AZURE_OPENAI_API_KEY" := "key"]>
       (<["AZURE_OPENAI_ENDPOINT" := "https://example.openai.azure.com"]> ∅))
    [].

(** Set-up cells that do nothing, and a [%dotenv] cell that sets the two
    credential variables. *)
Definition setup : @Embeddings.Py numpy unit := Embeddings.ret tt.

Definition dotenv : @Embeddings.Py numpy unit :=
  fun w =>
    (inr tt,
     @Embeddings.World numpy (Embeddings.generator w)
       (<["AZURE_OPENAI_API_KEY" := "key"]>
          (<["AZURE_OPENAI_ENDPOINT" := "https://example.openai.azure.com"]>
             (Embeddings.environ w)))
       (Embeddings.stdout w)).

End Standin.

(** ** Two more operations on strings, used to state what splitting keeps *)

Module PyText.

(** ["".join(words)] *)
Fixpoint join (words : list string) : string :=
  match words with
  | [] => ""
  | w :: rest => w +:+ join rest
  end.

(** The text without its whitespace characters. *)
Fixpoint remove_whitespace (s : string) : string :=
  match s with
  | EmptyString => EmptyString
  | String c s' =>
      if PyStr.isspace c then remove_whitespace s'
      else String c (remove_whitespace s')
  end.

End PyText.

(** ** The tokenizer over any alphabet

    [str] holds Unicode code points, of which the 8-bit characters of
    [PyStr] are the first 256.  Here the characters are those of an
    alphabet given with its built-in operations: [ord], [isspace],
    [isupper] on a character, and [lower] on a whole string (CPython
    lowercases a capital sigma by its context, and a few characters to
    more than one).  The code of the tokenizer is the same. *)

Module Text.

Class Alphabet : Type := {
  letter : Type;
  letter_eq_dec :: EqDecision letter;
  ord : letter -> N;
  isspace : letter -> bool;
  isupper : letter -> bool;
  lower : list letter -> list letter
}.

(** [a <= b] on sequences of code points: lexicographic, a proper
    prefix first. *)
Fixpoint le_codes (a b : list N) : bool :=
  match a, b with
  | [], _ => true
  | _ :: _, [] => false
  | x :: a', y :: b' =>
      if (x <? y)%N then true
      else if (y <? x)%N then false
      else le_codes a' b'
  end.

Section Tokenizer.
Context `{A : Alphabet}.

(** [s.split()], as [PyStr.split_scan]. *)
Fixpoint split_scan (cur : list letter) (s : list letter) : list (list letter) :=
  match s with
  | [] =>
      match cur with
      | [] => []
      | _ :: _ => [rev cur]
      end
  | c :: s' =>
      if isspace c then
        match cur with
        | [] => split_scan [] s'
        | _ :: _ => rev cur :: split_scan [] s'
        end
      else split_scan (c :: cur) s'
  end.

Definition split (s : list letter) : list (list letter) := split_scan [] s.

(** [[sentence.lower().split() for sentence in sentences]] *)
Definition tokenized_sentences (sentences : list (list letter))
    : list (list (list letter)) :=
  map (fun sentence => split (lower sentence)) sentences.

(** The order [sorted] uses on [str]. *)
Definition le (a b : list letter) : Prop :=
  le_codes (map ord a) (map ord b) = true.

#[global] Instance le_dec : RelDecision le.
Proof. intros a b. unfold le. apply _. Defined.

(** [sorted(set(word for sentence in tokenized_sentences for word in
    sentence))]: the set is read out as the words without repetitions. *)
Definition vocabulary (tokenized : list (list (list letter)))
    : list (list letter) :=
  merge_sort le (remove_dups (concat tokenized)).

(** What CPython's [str.lower] is taken to guarantee: a string made of
    characters that occur in the result of some [lower()] is left
    unchanged by [lower()]. *)
Definition lower_contract : Prop :=
  forall s w, (forall c, c ∈ w -> c ∈ lower s) -> lower w = w.

(** A token as the tokenizer leaves it: nonempty, without whitespace,
    and unchanged by another [lower()]. *)
Definition settled_token (w : list letter) : Prop :=
  w <> [] /\ Forall (fun c => isspace c = false) w /\ lower w = w.

(** A token without any character that [isupper] counts as uppercase. *)
Definition no_uppercase (w : list letter) : Prop :=
  Forall (fun c => isupper c = false) w.

End Tokenizer.

(** The 8-bit characters of [PyStr] as an alphabet. *)
Definition latin1 : Alphabet := {|
  letter := ascii;
  ord := N_of_ascii;
  isspace := PyStr.isspace;
  isupper := PyStr.isupper;
  lower := map PyStr.lower_char
|}.

(** The 8-bit characters and U+2102, DOUBLE-STRUCK CAPITAL C: a
    character that [isupper()] counts as uppercase and that has no
    lowercase form, so that [lower()] leaves it as it is. *)
Inductive letter_or_C : Type :=
  | Latin1 (c : ascii)
  | DoubleStruckC.

#[global] Instance letter_or_C_eq_dec : EqDecision letter_or_C.
Proof. solve_decision. Defined.

Definition lower_letter_or_C (c : letter_or_C) : letter_or_C :=
  match c with
  | Latin1 a => Latin1 (PyStr.lower_char a)
  | DoubleStruckC => DoubleStruckC
  end.

Definition latin1_and_C : Alphabet := {|
  letter := letter_or_C;
  ord := fun c => match c with
                  | Latin1 a => N_of_ascii a
                  | DoubleStruckC => 8450%N
                  end;
  isspace := fun c => match c with
                      | Latin1 a => PyStr.isspace a
                      | DoubleStruckC => false
                      end;
  isupper := fun c => match c with
                      | Latin1 a => PyStr.isupper a
                      | DoubleStruckC => true
                      end;
  lower := map lower_letter_or_C
|}.

(** A string literal as a text of that alphabet. *)
Definition text (s : string) : list letter_or_C :=
  map Latin1 (list_ascii_of_string s).

End Text.

(** ** The whole run of the word-embedding notebook

    The code cells that are not part of an embedding method belong to
    IPython and its extensions: the [%pip] and import cells that come
    first ([setup]) and the [%load_ext dotenv] / [%dotenv] cell before
    the hosted cell ([dotenv]), which sets environment variables from a
    file.  They are parameters of the run. *)

Module FullRun.
Import Embeddings.

Section Run.
Context `{NP : NumPy} `{GE : !Gensim} `{TR : Transformers} `{OA : OpenAI}.

Definition notebook_run (setup dotenv : Py unit) (sentences : list string)
    : Py unit :=
  bind setup (fun _ =>
  let tokenized := Tokenizer.tokenized_sentences sentences in
  bind (cell_one_hot tokenized) (fun names =>
  bind (cell_word2vec tokenized (fst names)) (fun _ =>
  bind (cell_glove (fst names)) (fun _ =>
  bind cell_bert (fun _ =>
  bind dotenv (fun _ =>
  cell_openai)))))).

(** A cell that does not draw from NumPy's global generator and does
    not take back anything printed. *)
Definition leaves_generator (c : Py unit) : Prop :=
  forall w, generator (snd (c w)) = generator w /\
            stdout w `prefix_of` stdout (snd (c w)).

End Run.
End FullRun.

(** * Properties *)

(** ** Facts about the built-in string operations *)

Module PyStrFacts.
Import PyStr.

Ltac each_char c :=
  destruct c as [[] [] [] [] [] [] [] []]; vm_compute; try reflexivity.

Lemma isupper_lower_char c : isupper (lower_char c) = false.
Proof. each_char c. Qed.

Lemma isspace_lower_char c : isspace (lower_char c) = isspace c.
Proof. each_char c. Qed.

Lemma lower_char_fixed c : isupper c = false -> lower_char c = c.
Proof. unfold lower_char. intros ->. reflexivity. Qed.

Lemma lower_no_uppercase s : no_uppercase (lower s) = true.
Proof.
  unfold no_uppercase.
  induction s as [|c s IH]; cbn [lower all_chars]; [reflexivity|].
  rewrite isupper_lower_char. exact IH.
Qed.

Lemma lower_fixed s : no_uppercase s = true -> lower s = s.
Proof.
  unfold no_uppercase.
  induction s as [|c s IH]; cbn [lower all_chars]; [reflexivity|].
  intros [Hc Hs]%andb_prop. apply negb_true_iff in Hc.
  rewrite (lower_char_fixed c Hc), (IH Hs). reflexivity.
Qed.

Lemma app_nil_l (s : string) : "" +:+ s = s.
Proof. reflexivity. Qed.

Lemma app_cons (c : ascii) (a b : string) :
  String c a +:+ b = String c (a +:+ b).
Proof. reflexivity. Qed.

Lemma all_chars_app p a b :
  all_chars p (a +:+ b) = all_chars p a && all_chars p b.
Proof.
  induction a as [|c a IH]; [reflexivity|].
  rewrite app_cons. cbn [all_chars]. rewrite IH. apply andb_assoc.
Qed.

Lemma app_empty_r (s : string) : s +:+ "" = s.
Proof.
  induction s as [|c s IH]; [reflexivity|]. rewrite app_cons. congruence.
Qed.

Lemma app_assoc' (a b c : string) : (a +:+ b) +:+ c = a +:+ (b +:+ c).
Proof.
  induction a as [|x a IH]; [reflexivity|]. rewrite !app_cons. congruence.
Qed.

Lemma string_of_snoc (l : list ascii) (c : ascii) :
  string_of_list_ascii (l ++ [c]) = string_of_list_ascii l +:+ String c "".
Proof.
  induction l as [|x l IH]; [reflexivity|].
  cbn [app string_of_list_ascii]. rewrite app_cons. congruence.
Qed.

(** *** The scan of [split] *)

Lemma split_blank sp s : is_whitespace sp = true -> split (sp +:+ s) = split s.
Proof.
  unfold split, is_whitespace.
  induction sp as [|c sp IH]; [reflexivity|].
  rewrite app_cons. cbn [all_chars split_scan].
  intros [Hc Hsp]%andb_prop. rewrite Hc. auto.
Qed.

Lemma split_all_blank sp : is_whitespace sp = true -> split sp = [].
Proof.
  intros H. rewrite <- (app_empty_r sp). rewrite (split_blank sp "" H).
  reflexivity.
Qed.

Lemma split_scan_blank cur rest :
  cur <> [] -> starts_blank rest ->
  split_scan cur rest = string_of_list_ascii (rev cur) :: split rest.
Proof.
  intros Hcur Hrest. destruct rest as [|c rest]; simpl in *.
  - destruct cur; [congruence | reflexivity].
  - rewrite Hrest. unfold split. simpl. rewrite Hrest.
    destruct cur; [congruence | reflexivity].
Qed.

Lemma split_scan_word w : forall cur rest,
  no_whitespace w = true -> starts_blank rest ->
  (cur <> [] \/ w <> "") ->
  split_scan cur (w +:+ rest)
  = (string_of_list_ascii (rev cur) +:+ w) :: split rest.
Proof.
  unfold no_whitespace.
  induction w as [|c w IH]; intros cur rest Hw Hrest Hne.
  - rewrite app_nil_l, app_empty_r. apply split_scan_blank; [|assumption].
    destruct Hne; congruence.
  - cbn [all_chars] in Hw. apply andb_prop in Hw as [Hc Hw].
    apply negb_true_iff in Hc. rewrite app_cons. cbn [split_scan]. rewrite Hc.
    rewrite (IH (c :: cur) rest Hw Hrest) by (left; discriminate).
    cbn [rev]. rewrite string_of_snoc, app_assoc'. reflexivity.
Qed.

Lemma split_word w rest :
  w <> "" -> no_whitespace w = true -> starts_blank rest ->
  split (w +:+ rest) = w :: split rest.
Proof.
  intros Hne Hw Hrest. unfold split at 1.
  rewrite (split_scan_word w [] rest Hw Hrest) by (right; exact Hne).
  reflexivity.
Qed.

Lemma words_of_unique s ws : words_of s ws -> ws = split s.
Proof.
  induction 1 as [sp Hsp | sp w rest ws Hsp Hne Hw Hrest _ IH].
  - symmetry. apply split_all_blank, Hsp.
  - rewrite (split_blank sp _ Hsp), (split_word w rest Hne Hw Hrest).
    congruence.
Qed.

Lemma blank_starts_blank s : is_whitespace s = true -> starts_blank s.
Proof.
  destruct s as [|c s]; [exact (fun _ => I)|].
  unfold is_whitespace. cbn [all_chars starts_blank].
  intros [Hc _]%andb_prop. exact Hc.
Qed.

Lemma starts_blank_app sp s :
  sp <> "" -> is_whitespace sp = true -> starts_blank (sp +:+ s).
Proof.
  destruct sp as [|c sp]; [congruence|]. intros _.
  unfold is_whitespace. rewrite app_cons. cbn [all_chars starts_blank].
  intros [Hc _]%andb_prop. exact Hc.
Qed.

(** Putting one more character in front of a text that has words. *)
Lemma words_of_cons c s ws :
  words_of s ws -> exists ws', words_of (String c s) ws'.
Proof.
  intros Hs. destruct (isspace c) eqn:Hc.
  - (* one more whitespace character in front *)
    destruct Hs as [sp Hsp | sp w rest ws Hsp Hne Hw Hrest Hws].
    + exists []. apply words_none. unfold is_whitespace in *.
      cbn [all_chars]. rewrite Hc. exact Hsp.
    + exists (w :: ws). rewrite <- app_cons.
      apply words_next; try assumption.
      unfold is_whitespace in *. cbn [all_chars]. rewrite Hc. exact Hsp.
  - (* the character starts or extends a word *)
    assert (Hone : no_whitespace (String c "") = true).
    { unfold no_whitespace. cbn [all_chars]. rewrite Hc. reflexivity. }
    destruct Hs as [sp Hsp | sp w rest ws Hsp Hne Hw Hrest Hws].
    + exists [String c ""].
      change (String c sp) with ("" +:+ String c "" +:+ sp).
      apply words_next; try easy.
      * apply blank_starts_blank, Hsp.
      * apply words_none, Hsp.
    + destruct sp as [|b sp].
      * exists (String c w :: ws). rewrite app_nil_l.
        change (String c (w +:+ rest)) with ("" +:+ String c w +:+ rest).
        apply words_next; try easy.
        unfold no_whitespace in *. cbn [all_chars]. rewrite Hc. exact Hw.
      * exists (String c "" :: w :: ws).
        change (String c (String b sp +:+ w +:+ rest))
          with ("" +:+ String c "" +:+ (String b sp +:+ w +:+ rest)).
        apply words_next; try easy.
        -- apply starts_blank_app; [discriminate | exact Hsp].
        -- apply words_next; assumption.
Qed.

Lemma words_of_total s : exists ws, words_of s ws.
Proof.
  induction s as [|c s [ws IH]].
  - exists []. apply words_none. reflexivity.
  - exact (words_of_cons c s ws IH).
Qed.

(** [split] computes the whitespace-split words. *)
Lemma split_words s : words_of s (split s).
Proof.
  destruct (words_of_total s) as [ws Hws].
  rewrite <- (words_of_unique s ws Hws). exact Hws.
Qed.

(** Every word of a text is made of characters of that text. *)
Lemma words_of_all_chars p s ws :
  words_of s ws -> all_chars p s = true ->
  Forall (fun w => all_chars p w = true) ws.
Proof.
  induction 1 as [sp Hsp | sp w rest ws Hsp Hne Hw Hrest _ IH];
    [constructor|].
  rewrite !all_chars_app.
  intros [_ [Hpw Hprest]%andb_prop]%andb_prop. constructor; auto.
Qed.

Lemma words_of_shape s ws :
  words_of s ws -> Forall (fun w => w <> "" /\ no_whitespace w = true) ws.
Proof. induction 1; constructor; auto. Qed.

Lemma split_lower_clean s : Forall clean_token (split (lower s)).
Proof.
  pose proof (split_words (lower s)) as Hws.
  pose proof (words_of_shape _ _ Hws) as Hshape.
  pose proof (words_of_all_chars _ _ _ Hws (lower_no_uppercase s)) as Hlow.
  revert Hshape Hlow. generalize (split (lower s)).
  induction l as [|w ws IH]; intros Hshape Hlow; constructor.
  - apply Forall_inv in Hshape as [Hne Hw]. apply Forall_inv in Hlow.
    repeat split; try assumption. apply lower_fixed, Hlow.
  - apply IH; eapply Forall_inv_tail; eassumption.
Qed.

Lemma lower_app a b : lower (a +:+ b) = lower a +:+ lower b.
Proof.
  induction a as [|c a IH]; [reflexivity|].
  rewrite app_cons. cbn [lower]. rewrite app_cons. congruence.
Qed.

Lemma all_chars_lower_space (negate : bool) s :
  all_chars (fun c => xorb negate (isspace c)) (lower s)
  = all_chars (fun c => xorb negate (isspace c)) s.
Proof.
  induction s as [|c s IH]; [reflexivity|].
  cbn [lower all_chars]. by rewrite isspace_lower_char, IH.
Qed.

Lemma is_whitespace_lower s : is_whitespace (lower s) = is_whitespace s.
Proof. apply (all_chars_lower_space false). Qed.

Lemma no_whitespace_lower s : no_whitespace (lower s) = no_whitespace s.
Proof. apply (all_chars_lower_space true). Qed.

Lemma words_of_lower s ws :
  words_of s ws -> words_of (lower s) (map lower ws).
Proof.
  induction 1 as [sp Hsp | sp w rest ws Hsp Hne Hw Hrest _ IH].
  - apply words_none. by rewrite is_whitespace_lower.
  - rewrite !lower_app. cbn [map]. apply words_next.
    + by rewrite is_whitespace_lower.
    + destruct w; [done | discriminate].
    + by rewrite no_whitespace_lower.
    + destruct rest as [|c rest]; [exact I|].
      cbn [lower starts_blank] in *. by rewrite isspace_lower_char.
    + exact IH.
Qed.

(** Lowercasing and splitting commute: the tokens of the lowercased
    sentence are the lowercased words of the sentence as written. *)
Theorem split_lower_commute (s : string) :
  split (lower s) = map lower (split s).
Proof.
  symmetry. apply words_of_unique, words_of_lower, split_words.
Qed.

End PyStrFacts.

(** ** The tokenizer and the vocabulary *)

Module TokenizerFacts.
Import PyStr PyStrFacts Tokenizer.

Lemma tokenized_lookup sentences i :
  tokenized_sentences sentences !! i
  = (fun s => split (lower s)) <$> sentences !! i.
Proof. unfold tokenized_sentences. apply list_lookup_fmap. Qed.

Lemma elem_of_concat (w : string) (tokenized : list (list string)) :
  w ∈ concat tokenized <-> exists ws, ws ∈ tokenized /\ w ∈ ws.
Proof.
  rewrite list_elem_of_In, in_concat. split.
  - intros (ws & H1 & H2). exists ws. by rewrite !list_elem_of_In.
  - intros (ws & H1 & H2). exists ws. by rewrite <- !list_elem_of_In.
Qed.

Lemma sorted_perm xs : sorted xs ≡ₚ xs.
Proof. unfold sorted. apply merge_sort_Permutation. Qed.

Lemma sorted_Sorted xs : Sorted le (sorted xs).
Proof. unfold sorted, le. apply (Sorted_merge_sort String.le). Qed.

(** The result of [sorted] depends only on which elements are given and
    how often, not on the order they arrive in. *)
Lemma sorted_order_irrelevant xs ys : xs ≡ₚ ys -> sorted xs = sorted ys.
Proof.
  intros Hperm. unfold le.
  apply (Sorted_unique String.le); try apply sorted_Sorted.
  by rewrite !sorted_perm.
Qed.

Lemma elem_of_vocabulary w tokenized :
  w ∈ vocabulary tokenized <-> exists ws, ws ∈ tokenized /\ w ∈ ws.
Proof.
  unfold vocabulary, word_set.
  rewrite sorted_perm, elem_of_elements, elem_of_list_to_set.
  apply elem_of_concat.
Qed.

Lemma vocabulary_NoDup tokenized : NoDup (vocabulary tokenized).
Proof.
  unfold vocabulary. rewrite sorted_perm. apply NoDup_elements.
Qed.

Lemma StronglySorted_strict (l : list string) :
  StronglySorted le l -> NoDup l -> StronglySorted lt l.
Proof.
  induction 1 as [|x l Hl IH Hx]; intros Hnd; constructor.
  - apply IH. by apply NoDup_cons_1_2 in Hnd.
  - apply NoDup_cons_1_1 in Hnd.
    rewrite Forall_forall in Hx |- *. intros y Hy. split; [by apply Hx|].
    intros ->. by apply Hnd.
Qed.

Lemma vocabulary_ascending tokenized : StronglySorted lt (vocabulary tokenized).
Proof.
  apply StronglySorted_strict; [|apply vocabulary_NoDup].
  unfold vocabulary, le. apply (Sorted_StronglySorted String.le), sorted_Sorted.
Qed.

Lemma tokens_clean sentences :
  Forall (Forall clean_token) (tokenized_sentences sentences).
Proof.
  unfold tokenized_sentences. apply Forall_forall. intros ws Hws.
  apply list_elem_of_In, in_map_iff in Hws as (s & <- & _).
  apply split_lower_clean.
Qed.

(** C2. For every ordered sequence of sentences the tokenizer yields
    (a) one token list per sentence, in order, which is exactly the
    whitespace-split words of the lowercased sentence (the only list the
    specification of whitespace splitting admits), and (b) a vocabulary
    whose members are exactly the words occurring in some tokenized
    sentence, each once, in strictly ascending order.  The result is
    determined by the corpus alone: whatever order the intermediate set
    hands its elements to [sorted] in, the same vocabulary comes out. *)
Theorem corpus_tokenizer_contract (sentences : list string) :
  let tokenized := tokenized_sentences sentences in
  let voc := vocabulary tokenized in
  length tokenized = length sentences /\
  (forall i s, sentences !! i = Some s ->
     exists ws, tokenized !! i = Some ws /\ words_of (lower s) ws /\
                forall ws', words_of (lower s) ws' -> ws' = ws) /\
  (forall w, w ∈ voc <-> exists ws, ws ∈ tokenized /\ w ∈ ws) /\
  NoDup voc /\
  StronglySorted lt voc /\
  (forall order, order ≡ₚ elements (word_set tokenized) -> sorted order = voc).
Proof.
  cbv zeta. repeat split.
  - unfold tokenized_sentences. apply length_map.
  - intros i s Hs. exists (split (lower s)). split; [|split].
    + rewrite tokenized_lookup, Hs. reflexivity.
    + apply split_words.
    + apply words_of_unique.
  - apply elem_of_vocabulary.
  - apply elem_of_vocabulary.
  - apply vocabulary_NoDup.
  - apply vocabulary_ascending.
  - intros order Hperm. unfold vocabulary. by apply sorted_order_irrelevant.
Qed.

End TokenizerFacts.

(** ** One-hot vectors *)

Module OneHotFacts.
Import Tokenizer OneHot.
Local Open Scope float_scope.

Lemma eye_lookup n i : (i < n)%nat -> eye n !! i = Some (basis n i).
Proof.
  intros Hi. unfold eye, basis.
  rewrite list_lookup_fmap, lookup_seq_lt by exact Hi. reflexivity.
Qed.

Lemma basis_length n i : length (basis n i) = n.
Proof. unfold basis. by rewrite length_map, length_seq. Qed.

Lemma basis_lookup n i c :
  (c < n)%nat -> basis n i !! c = Some (if Nat.eqb i c then 1 else 0).
Proof.
  intros Hc. unfold basis.
  rewrite list_lookup_fmap, lookup_seq_lt by exact Hc. reflexivity.
Qed.

Lemma dot_from_S i j a m acc :
  dot_from i j a (S m) acc
  = dot_from i j (S a) m
      (acc + (if Nat.eqb i a then 1 else 0) * (if Nat.eqb j a then 1 else 0)).
Proof. reflexivity. Qed.

(** Columns where the two vectors do not both hold a one add nothing. *)
Lemma dot_from_keep i j m : forall a acc,
  acc = 0 \/ acc = 1 ->
  (i <> j \/ (i < a)%nat \/ (a + m <= i)%nat) ->
  dot_from i j a m acc = acc.
Proof.
  induction m as [|m IH]; intros a acc Hacc Hout; [reflexivity|].
  rewrite dot_from_S.
  assert (Hstep : acc + (if Nat.eqb i a then 1 else 0)
                        * (if Nat.eqb j a then 1 else 0) = acc).
  { destruct (Nat.eqb_spec i a) as [Hi|Hi], (Nat.eqb_spec j a) as [Hj|Hj];
      try (destruct Hacc as [-> | ->]; reflexivity).
    exfalso. lia. }
  rewrite Hstep. apply IH; [exact Hacc | lia].
Qed.

Lemma dot_from_hit i m : forall a,
  (a <= i)%nat -> (i < a + m)%nat -> dot_from i i a m 0 = 1.
Proof.
  induction m as [|m IH]; intros a Hlo Hhi; [lia|].
  rewrite dot_from_S. destruct (Nat.eqb_spec i a) as [->|Hne].
  - change (0 + 1 * 1) with 1.
    apply dot_from_keep; [by right | lia].
  - change (0 + 0 * 0) with 0. apply IH; lia.
Qed.

Lemma dot_basis n i j :
  (i < n)%nat -> (j < n)%nat ->
  dot (basis n i) (basis n j) = if Nat.eqb i j then 1 else 0.
Proof.
  intros Hi Hj. change (dot (basis n i) (basis n j)) with (dot_from i j 0 n 0).
  destruct (Nat.eqb_spec i j) as [->|Hne].
  - apply dot_from_hit; lia.
  - apply dot_from_keep; [by left | by left].
Qed.

(** The table built by the comprehension. *)
Lemma one_hot_from_spec n words : forall i acc,
  (i + length words <= n)%nat -> NoDup words ->
  exists tbl, one_hot_from n i words acc = Some tbl /\
    (forall k w, words !! k = Some w -> tbl !! w = Some (basis n (i + k))) /\
    (forall w, w ∉ words -> tbl !! w = acc !! w).
Proof.
  induction words as [|word rest IH]; intros i acc Hlen Hnd.
  - exists acc. split; [reflexivity|]. split; [|done].
    intros k w Hk. by destruct k.
  - cbn [length] in Hlen. cbn [one_hot_from].
    rewrite eye_lookup by lia.
    apply NoDup_cons in Hnd as [Hfresh Hnd].
    destruct (IH (S i) (<[word := basis n i]> acc)) as (tbl & Heq & Hin & Hout);
      [lia | exact Hnd |].
    exists tbl. split; [exact Heq|]. split.
    + intros [|k] w Hk.
      * injection Hk as <-. rewrite Hout by exact Hfresh.
        rewrite lookup_insert_eq. f_equal. f_equal. lia.
      * rewrite (Hin k w Hk). f_equal. f_equal. lia.
    + intros w Hw. apply not_elem_of_cons in Hw as [Hne Hw].
      rewrite (Hout w Hw). by rewrite lookup_insert_ne.
Qed.

Lemma one_hot_vectors_spec voc :
  NoDup voc ->
  exists tbl, one_hot_vectors voc = Some tbl /\
    (forall i w, voc !! i = Some w -> tbl !! w = Some (basis (length voc) i)) /\
    (forall w, w ∉ voc -> tbl !! w = None).
Proof.
  intros Hnd. unfold one_hot_vectors.
  destruct (one_hot_from_spec (length voc) voc 0 ∅) as (tbl & Heq & Hin & Hout);
    [lia | exact Hnd |].
  exists tbl. split; [exact Heq|]. split; [exact Hin|].
  intros w Hw. by rewrite (Hout w Hw).
Qed.

(** C1. For every corpus the comprehension succeeds, and the table it
    builds gives the word at index [i] of the sorted vocabulary the
    standard basis vector of length [|vocabulary|] with its one at [i];
    it has no other keys.  The vectors are orthonormal: the dot product
    of the vectors of two vocabulary words is 1 when the words are the
    same and 0 when they differ. *)
Theorem one_hot_orthonormal (sentences : list string) :
  let voc := vocabulary (tokenized_sentences sentences) in
  exists tbl, one_hot_vectors voc = Some tbl /\
    (forall i w, voc !! i = Some w ->
       exists v, tbl !! w = Some v /\ v = basis (length voc) i /\
         length v = length voc /\
         forall c, (c < length voc)%nat ->
           v !! c = Some (if Nat.eqb i c then 1 else 0)) /\
    (forall w, w ∉ voc -> tbl !! w = None) /\
    (forall w1 w2 v1 v2, tbl !! w1 = Some v1 -> tbl !! w2 = Some v2 ->
       dot v1 v2 = if decide (w1 = w2) then 1 else 0).
Proof.
  cbv zeta. set (voc := vocabulary _).
  assert (Hnd : NoDup voc) by apply TokenizerFacts.vocabulary_NoDup.
  destruct (one_hot_vectors_spec voc Hnd) as (tbl & Heq & Hin & Hout).
  exists tbl. split; [exact Heq|]. split; [|split; [exact Hout|]].
  { intros i w Hi. exists (basis (length voc) i).
    split; [exact (Hin i w Hi)|]. split; [reflexivity|].
    split; [apply basis_length|]. intros c Hc. by apply basis_lookup. }
  assert (Hkey : forall w v, tbl !! w = Some v ->
            exists i, voc !! i = Some w /\ v = basis (length voc) i).
  { intros w v Hw. destruct (decide (w ∈ voc)) as [Hel|Hnel].
    - apply list_elem_of_lookup in Hel as [i Hi]. exists i. split; [exact Hi|].
      rewrite (Hin i w Hi) in Hw. congruence.
    - rewrite (Hout w Hnel) in Hw. discriminate. }
  intros w1 w2 v1 v2 H1 H2.
  apply Hkey in H1 as (i1 & Hi1 & ->). apply Hkey in H2 as (i2 & Hi2 & ->).
  rewrite dot_basis by (eapply lookup_lt_Some; eassumption).
  destruct (Nat.eqb_spec i1 i2) as [->|Hne].
  - rewrite decide_True; [reflexivity | congruence].
  - rewrite decide_False; [reflexivity|].
    intros ->. apply Hne. eapply NoDup_lookup; eassumption.
Qed.

(** C3, as stated, fails: the two sentences have thirteen distinct
    words, not twelve, and the vector of "learning" has length 13. *)
Lemma scenario_vocabulary_not_12 :
  ~ (length (vocabulary (tokenized_sentences scenario_corpus)) = 12%nat /\
     exists v,
       (one_hot_vectors (vocabulary (tokenized_sentences scenario_corpus))
          ≫= (.!! "learning")) = Some v /\ length v = 12%nat).
Proof. intros [Hlen _]. vm_compute in Hlen. discriminate Hlen. Qed.

(** C3, amended.  For the scenario corpus the vocabulary is the thirteen
    distinct lowercase words of the two sentences in ascending order
    ("AI" appears as "ai", after "a"); "learning" is at index 8, and its
    one-hot vector has length 13 with a single one, at index 8. *)
Theorem scenario_vocabulary_13 :
  let voc := vocabulary (tokenized_sentences scenario_corpus) in
  voc = ["a"; "ai"; "deep"; "for"; "i"; "is"; "key"; "language"; "learning";
         "love"; "natural"; "processing"; "technology"] /\
  length voc = 13%nat /\
  "ai" ∈ voc /\ ("AI" ∉ voc) /\
  voc !! 8%nat = Some "learning" /\
  (one_hot_vectors voc ≫= (.!! "learning"))
  = Some [0; 0; 0; 0; 0; 0; 0; 0; 1; 0; 0; 0; 0] /\
  basis 13 8 = [0; 0; 0; 0; 0; 0; 0; 0; 1; 0; 0; 0; 0].
Proof.
  cbv zeta.
  assert (Hvoc : vocabulary (tokenized_sentences scenario_corpus)
    = ["a"; "ai"; "deep"; "for"; "i"; "is"; "key"; "language"; "learning";
       "love"; "natural"; "processing"; "technology"]) by (vm_compute; reflexivity).
  rewrite Hvoc. split; [reflexivity|]. split; [reflexivity|].
  split; [|split; [|split; [reflexivity|split; vm_compute; reflexivity]]].
  - apply (list_elem_of_lookup_2 _ 1%nat). reflexivity.
  - apply (bool_decide_unpack _). vm_compute. exact I.
Qed.

(** The notebook's own corpus: twenty-four words, "learning" at index
    12, and the vector printed for it. *)
Theorem notebook_vocabulary :
  let voc := vocabulary (tokenized_sentences sentences) in
  voc = ["a"; "ai"; "are"; "capture"; "deep"; "embeddings"; "evolving";
         "for"; "i"; "is"; "key"; "language"; "learning"; "love";
         "machine"; "meaning"; "natural"; "openai"; "processing";
         "rapidly"; "semantic"; "state-of-the-art"; "technology"; "word"] /\
  length voc = 24%nat /\
  voc !! 12%nat = Some "learning" /\
  (one_hot_vectors voc ≫= (.!! "learning")) = Some (basis 24 12) /\
  basis 24 12 = replicate 12 0 ++ [1] ++ replicate 11 0.
Proof.
  cbv zeta.
  assert (Hvoc : vocabulary (tokenized_sentences sentences)
    = ["a"; "ai"; "are"; "capture"; "deep"; "embeddings"; "evolving";
       "for"; "i"; "is"; "key"; "language"; "learning"; "love";
       "machine"; "meaning"; "natural"; "openai"; "processing";
       "rapidly"; "semantic"; "state-of-the-art"; "technology"; "word"])
    by (vm_compute; reflexivity).
  rewrite Hvoc. split; [reflexivity|]. split; [reflexivity|].
  split; [reflexivity|]. split; vm_compute; reflexivity.
Qed.

End OneHotFacts.

(** ** Draws from the generator *)

Module NpRandomFacts.
Import NpRandom.
Section Draws.
Context `{NP : NumPy}.

Lemma draw_S n st :
  draw (S n) st
  = (fst (random_sample st) :: fst (draw n (snd (random_sample st))),
     snd (draw n (snd (random_sample st)))).
Proof.
  cbn [draw]. destruct (random_sample st) as [x st1].
  cbn [fst snd]. by destruct (draw n st1).
Qed.

Lemma draw_length n : forall st, length (fst (draw n st)) = n.
Proof.
  induction n as [|n IH]; intros st; [reflexivity|].
  rewrite draw_S. cbn [fst length]. by rewrite IH.
Qed.

Lemma skip_S n st : skip (S n) st = skip n (snd (random_sample st)).
Proof. unfold skip. by rewrite draw_S. Qed.

(** Drawing [n + m] values is drawing [n] and then [m]. *)
Lemma draw_add n m : forall st,
  draw (n + m) st
  = (fst (draw n st) ++ fst (draw m (skip n st)), skip m (skip n st)).
Proof.
  induction n as [|n IH]; intros st.
  - cbn [Nat.add draw fst app]. unfold skip. cbn [draw snd].
    by destruct (draw m st).
  - cbn [Nat.add]. rewrite !draw_S, skip_S, IH. reflexivity.
Qed.

Lemma skip_add n m st : skip (n + m) st = skip m (skip n st).
Proof. unfold skip at 1. by rewrite draw_add. Qed.

Lemma draw_rows_S r c st :
  draw_rows (S r) c st
  = (fst (draw c st) :: fst (draw_rows r c (skip c st)),
     snd (draw_rows r c (skip c st))).
Proof.
  cbn [draw_rows]. unfold skip. destruct (draw c st) as [row st1].
  cbn [fst snd]. by destruct (draw_rows r c st1).
Qed.

(** The rows of a matrix are consecutive blocks of the stream. *)
Lemma draw_rows_stream r c : forall st,
  concat (fst (draw_rows r c st)) = fst (draw (r * c) st) /\
  snd (draw_rows r c st) = skip (r * c) st.
Proof.
  induction r as [|r IH]; intros st; [done|].
  rewrite draw_rows_S. cbn [fst snd concat Nat.mul].
  destruct (IH (skip c st)) as [Hdata Hstate].
  rewrite Hdata, Hstate, draw_add, skip_add. done.
Qed.

Lemma draw_rows_shape r c : forall st,
  length (fst (draw_rows r c st)) = r /\
  Forall (fun row => length row = c) (fst (draw_rows r c st)).
Proof.
  induction r as [|r IH]; intros st; [by split; [|constructor]|].
  rewrite draw_rows_S. cbn [fst length]. destruct (IH (skip c st)) as [Hlen Hrows].
  split; [by rewrite Hlen|]. constructor; [apply draw_length | exact Hrows].
Qed.

Lemma random_fst shape st :
  fst (random shape st)
  = NDArray (fst shape) (snd shape) (fst (draw_rows (fst shape) (snd shape) st)).
Proof. unfold random. by destruct (draw_rows _ _ st). Qed.

Lemma random_snd shape st :
  snd (random shape st) = skip (fst shape * snd shape) st.
Proof.
  unfold random. pose proof (draw_rows_stream (fst shape) (snd shape) st) as [_ H].
  destruct (draw_rows _ _ st). exact H.
Qed.

End Draws.
End NpRandomFacts.

(** ** The vector-search cell *)

Module VectorSearchFacts.
Import NpRandom NpRandomFacts VectorSearch.

Section Cell.
Context `{NP : NumPy} `{FA : !Faiss}.

Lemma cell_database seed d nb nq k :
  database (cell seed d nb nq k)
  = astype (fst (random (nb, d) (np_random_seed seed))).
Proof.
  unfold cell. destruct (random (nb, d) _) as [db st1].
  by destruct (random (nq, d) st1).
Qed.

Lemma cell_queries seed d nb nq k :
  queries (cell seed d nb nq k)
  = astype (fst (random (nq, d) (skip (nb * d) (np_random_seed seed)))).
Proof.
  unfold cell. rewrite <- (random_snd (nb, d)).
  destruct (random (nb, d) _) as [db st1]. cbn [snd].
  by destruct (random (nq, d) st1).
Qed.

Lemma cell_printed seed d nb nq k :
  printed (cell seed d nb nq k)
  = result_bind (IndexHNSWFlat d 32) (fun index =>
    result_bind (index_add index (database (cell seed d nb nq k))) (fun index =>
    result_bind (index_search index (queries (cell seed d nb nq k)) k)
      (fun found => inr (snd found, fst found)))).
Proof.
  unfold cell. destruct (random (nb, d) _) as [db st1].
  destruct (random (nq, d) st1) as [qs st2]. cbn [printed database queries].
  destruct (IndexHNSWFlat d 32) as [e|i]; [done|]. cbn [result_bind].
  destruct (index_add i _) as [e|i']; [done|]. cbn [result_bind].
  by destruct (index_search i' _ k) as [e|[D I]].
Qed.

Lemma astype_shape (a : ndarray float) :
  nrows (astype a) = nrows a /\ ncols (astype a) = ncols a /\
  length (rows (astype a)) = length (rows a) /\
  (forall c, Forall (fun row => length row = c) (rows a) ->
             Forall (fun row => length row = c) (rows (astype a))).
Proof.
  unfold astype. cbn [nrows ncols rows]. repeat split.
  - apply length_map.
  - intros c Hc. apply Forall_fmap. eapply Forall_impl; [exact Hc|].
    intros row Hrow. cbn. by rewrite length_map.
Qed.

(** The shape of a generated and cast array. *)
Lemma generated_shape r c st :
  let a := astype (fst (random (r, c) st)) in
  nrows a = r /\ ncols a = c /\ length (rows a) = r /\
  Forall (fun row => length row = c) (rows a).
Proof.
  cbv zeta. destruct (astype_shape (fst (random (r, c) st))) as (H1 & H2 & H3 & H4).
  rewrite random_fst in *. cbn [fst snd nrows ncols rows] in *.
  destruct (draw_rows_shape r c st) as [Hlen Hrows].
  rewrite H3. repeat split; try assumption. by apply H4.
Qed.

End Cell.

(** C10, as stated, fails: with no queries asked for, two runs that
    differ in the database size alone have the same (empty) query set. *)
Lemma different_nb_same_queries :
  ~ (forall (NP : NumPy) (FA : @Faiss NP) seed d nq k nb nb',
       nb <> nb' ->
       queries (cell seed d nb nq k) <> queries (cell seed d nb' nq k)).
Proof.
  intros H.
  apply (H Standin.numpy Standin.faiss 1234%N 128%nat 0%nat 4%nat 1%nat 2%nat);
    [discriminate|].
  rewrite !cell_queries, !random_fst. reflexivity.
Qed.

(** C10, amended.  The database is drawn from the seeded stream before
    the queries: the database is the first [nb * d] values of the
    stream, and the query set is the cast of the [nq * d] values that
    follow them, in rows of [d].  So the query set is a function of the
    seed, [nb * d], [nq] and [d]: runs that agree on these have the same
    queries, and with [nq = 0] the query set is the same whatever [nb]
    is.  Nothing is claimed about different blocks of the stream having
    different contents. *)
Theorem queries_follow_database `{NP : NumPy} `{FA : !Faiss}
    (seed : N) (d nb nq k : nat) :
  let r := cell seed d nb nq k in
  let stream := np_random_seed seed in
  concat (rows (database r)) = map astype_f32 (fst (draw (nb * d) stream)) /\
  concat (rows (queries r))
  = map astype_f32 (fst (draw (nq * d) (skip (nb * d) stream))) /\
  rows (queries r)
  = map (map astype_f32) (fst (draw_rows nq d (skip (nb * d) stream))) /\
  nrows (queries r) = nq /\ ncols (queries r) = d /\
  (forall nb' k', (nb' * d = nb * d)%nat ->
     queries (cell seed d nb' nq k') = queries r) /\
  (forall nb' k', nq = 0%nat -> queries (cell seed d nb' nq k') = queries r).
Proof.
  cbv zeta. rewrite cell_database, cell_queries, !random_fst.
  unfold astype. cbn [rows nrows ncols fst snd].
  repeat split.
  - rewrite <- (proj1 (draw_rows_stream nb d _)).
    generalize (fst (draw_rows nb d (np_random_seed seed))).
    induction l as [|row l IH]; [done|]. cbn. by rewrite map_app, IH.
  - rewrite <- (proj1 (draw_rows_stream nq d _)).
    generalize (fst (draw_rows nq d (skip (nb * d) (np_random_seed seed)))).
    induction l as [|row l IH]; [done|]. cbn. by rewrite map_app, IH.
  - intros nb' k' Heq. rewrite cell_queries, random_fst, Heq. reflexivity.
  - intros nb' k' ->. rewrite cell_queries, random_fst. reflexivity.
Qed.

(** C7, as stated, fails: the cell has no check for an empty database.
    With [nb = 0] (and [k = 4 > nb]) and an index library that accepts
    every call, the cell generates a database of no rows, builds the
    index, searches it and prints the two matrices; it does not fail. *)
Lemma empty_database_is_searched :
  let r := @cell Standin.numpy Standin.faiss 1234%N 128%nat 0%nat 5%nat 4%nat in
  nrows (database r) = 0%nat /\
  ~ (exists e, printed r = inl e) /\
  exists found, printed r = inr found.
Proof.
  cbv zeta. split; [reflexivity|]. split.
  - intros [e He]. vm_compute in He. discriminate He.
  - eexists. vm_compute. reflexivity.
Qed.

(** C7, amended.  The cell validates nothing itself and has no error of
    its own.  The database and the queries are generated with the same
    number of columns [d], the one the index is built with, so their
    dimensionalities cannot differ.  For every [nb] (0 included) and
    every [k] (larger than [nb] included) the cell builds the index,
    adds the database and searches: it fails exactly when one of these
    three library calls raises, with that exception unchanged, and
    prints the search result otherwise. *)
Theorem cell_has_no_checks `{NP : NumPy} `{FA : !Faiss}
    (seed : N) (d nb nq k : nat) :
  let r := cell seed d nb nq k in
  (nrows (database r) = nb /\ ncols (database r) = d /\
   length (rows (database r)) = nb /\
   Forall (fun row => length row = d) (rows (database r))) /\
  (nrows (queries r) = nq /\ ncols (queries r) = d /\
   length (rows (queries r)) = nq /\
   Forall (fun row => length row = d) (rows (queries r))) /\
  (forall e, printed r = inl e <->
     IndexHNSWFlat d 32 = inl e \/
     (exists i, IndexHNSWFlat d 32 = inr i /\
        (index_add i (database r) = inl e \/
         exists i', index_add i (database r) = inr i' /\
            index_search i' (queries r) k = inl e))) /\
  (forall found, printed r = inr found <->
     exists i i', IndexHNSWFlat d 32 = inr i /\
       index_add i (database r) = inr i' /\
       index_search i' (queries r) k = inr (snd found, fst found)).
Proof.
  cbv zeta. split; [|split; [|split]].
  - rewrite cell_database. apply generated_shape.
  - rewrite cell_queries. apply generated_shape.
  - intros e. rewrite cell_printed.
    destruct (IndexHNSWFlat d 32) as [e0|i]; cbn [result_bind].
    { split; [intros [= ->]; by left | intros [[= ->]|(i & [=] & _)]; done]. }
    destruct (index_add i _) as [e1|i'] eqn:Hadd; cbn [result_bind].
    { split.
      - intros [= ->]. right. exists i. split; [done|]. by left.
      - intros [[=]|(i0 & [= <-] & [Hf|(i1 & Hf & _)])]; congruence. }
    destruct (index_search i' _ k) as [e2|[D I]] eqn:Hsearch; cbn [result_bind].
    { split.
      - intros [= ->]. right. exists i. split; [done|]. right. by exists i'.
      - intros [[=]|(i0 & [= <-] & [Hf|(i1 & Hf & Hs)])]; congruence. }
    split; [done|].
    intros [[=]|(i0 & [= <-] & [Hf|(i1 & Hf & Hs)])]; congruence.
  - intros [I D]. rewrite cell_printed.
    destruct (IndexHNSWFlat d 32) as [e0|i]; cbn [result_bind].
    { split; [done | intros (i & i' & [=] & _)]. }
    destruct (index_add i _) as [e1|i'] eqn:Hadd; cbn [result_bind].
    { split; [done | intros (i0 & i1 & [= <-] & Hf & _); congruence]. }
    destruct (index_search i' _ k) as [e2|[D' I']] eqn:Hsearch;
      cbn [result_bind fst snd].
    { split; [done | intros (i0 & i1 & [= <-] & Hf & Hs); congruence]. }
    split.
    + intros [= <- <-]. by exists i, i'.
    + intros (i0 & i1 & [= <-] & Hf & Hs). congruence.
Qed.

End VectorSearchFacts.

(** ** The embedding tables and the run of the notebook *)

Module EmbeddingsFacts.
Import Tokenizer Embeddings.

Section Tables.
Context `{NP : NumPy} `{GE : !Gensim}.

(** The Word2Vec comprehension succeeds when every lookup does, and
    then holds the looked-up vector of each word. *)
Lemma word2vec_table_spec model (n : nat) words : forall acc,
  (forall w, w ∈ words ->
     exists v, wv_getitem model w = inr v /\ length v = n) ->
  exists tbl, word2vec_table model words acc = inr tbl /\
    (forall w, w ∈ words -> exists v, tbl !! w = Some v /\ length v = n) /\
    (forall w, w ∉ words -> tbl !! w = acc !! w).
Proof.
  induction words as [|word rest IH]; intros acc Hwv.
  - exists acc. split; [reflexivity|]. split; [|done].
    intros w Hw. by apply elem_of_nil in Hw.
  - destruct (Hwv word) as (v & Hv & Hlen); [by left|].
    cbn [word2vec_table]. rewrite Hv. cbn [result_bind].
    destruct (IH (<[word := v]> acc)) as (tbl & Heq & Hin & Hout).
    { intros w Hw. apply Hwv. by right. }
    exists tbl. split; [exact Heq|]. split.
    + intros w Hw. destruct (decide (w ∈ rest)) as [Hrest|Hrest]; [by apply Hin|].
      apply elem_of_cons in Hw as [->|Hw]; [|done].
      exists v. rewrite (Hout word Hrest), lookup_insert_eq. done.
    + intros w Hw. apply not_elem_of_cons in Hw as [Hne Hw].
      rewrite (Hout w Hw). by rewrite lookup_insert_ne.
Qed.

(** The GloVe comprehension gives each word ten draws. *)
Lemma glove_table_spec words : forall acc st,
  (forall w, w ∈ words ->
     exists v, fst (glove_table words acc st) !! w = Some v /\ length v = 10%nat) /\
  (forall w, w ∉ words -> fst (glove_table words acc st) !! w = acc !! w).
Proof.
  induction words as [|word rest IH]; intros acc st.
  - split; [|done]. intros w Hw. by apply elem_of_nil in Hw.
  - cbn [glove_table]. unfold NpRandom.rand.
    pose proof (NpRandomFacts.draw_length 10 st) as Hlen.
    destruct (NpRandom.draw 10 st) as [v st']. cbn [fst] in Hlen.
    destruct (IH (<[word := v]> acc) st') as [Hin Hout]. split.
    + intros w Hw. destruct (decide (w ∈ rest)) as [Hrest|Hrest]; [by apply Hin|].
      apply elem_of_cons in Hw as [->|Hw]; [|done].
      exists v. rewrite (Hout word Hrest), lookup_insert_eq. done.
    + intros w Hw. apply not_elem_of_cons in Hw as [Hne Hw].
      rewrite (Hout w Hw). by rewrite lookup_insert_ne.
Qed.

Lemma vocabulary_word_occurs tokenized w :
  w ∈ vocabulary tokenized ->
  w ∈ concat tokenized /\
  (1 <= count_occ String.eq_dec (concat tokenized) w)%nat.
Proof.
  intros Hw. apply TokenizerFacts.elem_of_vocabulary in Hw.
  apply TokenizerFacts.elem_of_concat in Hw. split; [exact Hw|].
  apply list_elem_of_In in Hw.
  apply (count_occ_In String.eq_dec) in Hw. lia.
Qed.

(** C6. For every corpus on which the Word2Vec training returns a model
    (under the contract assumed of gensim), the Word2Vec table is built
    without a missing key and holds, for every vocabulary word, a vector
    of length 10, and has no other keys; so does the GloVe placeholder
    table, whatever state the generator is in. *)
Theorem tables_cover_vocabulary (sentences : list string)
    (model : w2v_model) (st : rng) :
  gensim_contract ->
  let tokenized := tokenized_sentences sentences in
  let voc := vocabulary tokenized in
  Word2Vec tokenized 10 2 1 1 1 = inr model ->
  (exists tbl, word2vec_vectors tokenized voc = inr tbl /\
     (forall w, w ∈ voc -> exists v, tbl !! w = Some v /\ length v = 10%nat) /\
     (forall w, w ∉ voc -> tbl !! w = None)) /\
  (forall w, w ∈ voc ->
     exists v, fst (glove_vectors voc st) !! w = Some v /\ length v = 10%nat) /\
  (forall w, w ∉ voc -> fst (glove_vectors voc st) !! w = None).
Proof.
  intros Hcontract tokenized voc Htrain. split; [|split].
  - unfold word2vec_vectors. rewrite Htrain. cbn [result_bind].
    destruct (word2vec_table_spec model 10 voc ∅) as (tbl & Heq & Hin & Hout).
    { intros w Hw. apply vocabulary_word_occurs in Hw as [Hocc Hcount].
      exact (Hcontract _ _ _ _ _ _ model w Htrain Hocc Hcount). }
    exists tbl. split; [exact Heq|]. split; [exact Hin|].
    intros w Hw. by rewrite (Hout w Hw).
  - apply glove_table_spec.
  - intros w Hw. unfold glove_vectors.
    by rewrite (proj2 (glove_table_spec voc ∅ st) w Hw).
Qed.

End Tables.

(** *** What the pieces of the notebook print *)

Section Run.
Context `{NP : NumPy} `{GE : !Gensim} `{TR : Transformers} `{OA : OpenAI}.



















(** The example word is fixed in the code: when "learning" is not a
    vocabulary word the one-hot cell prints the vocabulary and then
    raises KeyError; when it is, at index [i], the cell prints the
    vocabulary and the basis vector with its one at [i]. *)
Theorem one_hot_cell_example_word (tokenized : list (list string)) (w : world) :
  let voc := vocabulary tokenized in
  ("learning" ∉ voc ->
     cell_one_hot tokenized w
     = (inl (KeyError "learning"),
        World (generator w) (environ w)
          (stdout w ++ [("Vocabulary:", Words voc)]))) /\
  (forall i, voc !! i = Some "learning" ->
     exists tbl, OneHot.one_hot_vectors voc = Some tbl /\
       cell_one_hot tokenized w
       = (inr (voc, tbl),
          World (generator w) (environ w)
            ((stdout w ++ [("Vocabulary:", Words voc)])
             ++ [("One-Hot Encoding Example:",
                  Floats (OneHot.basis (length voc) i))]))).
Proof.
  cbv zeta. set (voc := vocabulary tokenized).
  destruct (OneHotFacts.one_hot_vectors_spec voc
              (TokenizerFacts.vocabulary_NoDup tokenized))
    as (tbl & Heq & Hin & Hout).
  unfold cell_one_hot, bind, call, print, ret, dict_getitem.
  fold voc. rewrite Heq. cbn [fst snd generator environ stdout].
  split.
  - intros Hnot. by rewrite (Hout _ Hnot).
  - intros i Hi. exists tbl. split; [reflexivity|].
    by rewrite (Hin i _ Hi).
Qed.

End Run.


Lemma standin_gensim_contract : @gensim_contract Standin.numpy Standin.gensim.
Proof.
  intros sentences size window min_count workers sg model word Htrain Hocc Hcount.
  cbn in Htrain.
  destruct (filter _ (concat sentences)) as [|w0 kept] eqn:Hkept; [done|].
  injection Htrain as <-. cbn [Standin.gensim wv_getitem fst snd].
  assert (Hin : word ∈ w0 :: kept).
  { rewrite <- Hkept. apply list_elem_of_filter. by split. }
  rewrite decide_True by exact Hin.
  eexists. split; [reflexivity|]. apply length_replicate.
Qed.

(** C6 on the scenario corpus with the stand-in libraries. *)
Lemma tables_cover_vocabulary_witness :
  @gensim_contract Standin.numpy Standin.gensim /\
  exists model,
    @Word2Vec Standin.numpy Standin.gensim
      (tokenized_sentences scenario_corpus) 10 2 1 1 1 = inr model /\
    let voc := vocabulary (tokenized_sentences scenario_corpus) in
    (exists tbl,
       @word2vec_vectors Standin.numpy Standin.gensim
         (tokenized_sentences scenario_corpus) voc = inr tbl /\
       (forall w, w ∈ voc -> exists v, tbl !! w = Some v /\ length v = 10%nat) /\
       (forall w, w ∉ voc -> tbl !! w = None)) /\
    (forall w, w ∈ voc ->
       exists v, fst (@glove_vectors Standin.numpy voc 0%nat) !! w = Some v /\
                 length v = 10%nat) /\
    (forall w, w ∉ voc -> fst (@glove_vectors Standin.numpy voc 0%nat) !! w = None).
Proof.
  split; [exact standin_gensim_contract|].
  eexists. split; [vm_compute; reflexivity|].
  eapply (@tables_cover_vocabulary Standin.numpy Standin.gensim
            scenario_corpus _ 0%nat standin_gensim_contract).
  vm_compute. reflexivity.
Defined.

End EmbeddingsFacts.

(** ** More on the tokenizer and the vocabulary *)

Module TokenizerLaws.
Import PyStr PyStrFacts PyText Tokenizer TokenizerFacts.

Lemma remove_whitespace_app a b :
  remove_whitespace (a +:+ b) = remove_whitespace a +:+ remove_whitespace b.
Proof.
  induction a as [|c a IH]; [reflexivity|].
  rewrite app_cons. cbn [remove_whitespace].
  destruct (isspace c); [exact IH|]. rewrite app_cons. congruence.
Qed.

Lemma remove_whitespace_blank sp :
  is_whitespace sp = true -> remove_whitespace sp = "".
Proof.
  unfold is_whitespace. induction sp as [|c sp IH]; [reflexivity|].
  cbn [all_chars remove_whitespace]. intros [-> Hsp]%andb_prop. auto.
Qed.

Lemma remove_whitespace_word w :
  no_whitespace w = true -> remove_whitespace w = w.
Proof.
  unfold no_whitespace. induction w as [|c w IH]; [reflexivity|].
  cbn [all_chars remove_whitespace]. intros [Hc Hw]%andb_prop.
  apply negb_true_iff in Hc. rewrite Hc, (IH Hw). reflexivity.
Qed.

Lemma remove_whitespace_empty s :
  remove_whitespace s = "" -> is_whitespace s = true.
Proof.
  unfold is_whitespace. induction s as [|c s IH]; [reflexivity|].
  cbn [all_chars remove_whitespace].
  destruct (isspace c); [exact IH | discriminate].
Qed.

Lemma remove_whitespace_lower s :
  remove_whitespace (lower s) = lower (remove_whitespace s).
Proof.
  induction s as [|c s IH]; [reflexivity|].
  cbn [lower remove_whitespace]. rewrite isspace_lower_char.
  destruct (isspace c); [exact IH|]. cbn [lower]. congruence.
Qed.

Lemma words_of_join s ws : words_of s ws -> join ws = remove_whitespace s.
Proof.
  induction 1 as [sp Hsp | sp w rest ws Hsp Hne Hw Hrest _ IH].
  - by rewrite remove_whitespace_blank.
  - rewrite !remove_whitespace_app, (remove_whitespace_blank sp Hsp),
      (remove_whitespace_word w Hw), app_nil_l.
    cbn [join]. congruence.
Qed.

(** Tokenizing loses the whitespace and nothing else: the tokens of a
    sentence, put together again, are the lowercased sentence without
    its whitespace characters. *)
Theorem tokens_keep_all_but_whitespace (sentences : list string) :
  forall i s, sentences !! i = Some s ->
    exists ws, tokenized_sentences sentences !! i = Some ws /\
      join ws = lower (remove_whitespace s).
Proof.
  intros i s Hs. exists (split (lower s)). split.
  - rewrite tokenized_lookup, Hs. reflexivity.
  - rewrite <- remove_whitespace_lower.
    apply words_of_join, split_words.
Qed.

Lemma tokens_keep_all_but_whitespace_witness :
  exists ws, tokenized_sentences scenario_corpus !! 1%nat = Some ws /\
    join ws = lower (remove_whitespace "Deep learning is a key technology for AI").
Proof.
  apply (tokens_keep_all_but_whitespace scenario_corpus 1%nat). reflexivity.
Defined.

Lemma split_nil_blank s : split s = [] <-> is_whitespace s = true.
Proof.
  split; [|apply split_all_blank].
  intros Hnil. apply remove_whitespace_empty.
  rewrite <- (words_of_join s (split s) (split_words s)), Hnil. reflexivity.
Qed.

(** A sentence has no tokens exactly when it is empty or all whitespace;
    it keeps its place in the tokenized corpus all the same.  The
    vocabulary is empty exactly when every sentence is like that (an
    empty corpus included). *)
Theorem blank_sentences_have_no_tokens (sentences : list string) :
  (forall i s, sentences !! i = Some s ->
     (tokenized_sentences sentences !! i = Some [] <->
      is_whitespace s = true)) /\
  (vocabulary (tokenized_sentences sentences) = [] <->
   Forall (fun s => is_whitespace s = true) sentences).
Proof.
  split.
  - intros i s Hs. rewrite tokenized_lookup, Hs. cbn [fmap option_fmap option_map].
    rewrite <- is_whitespace_lower, <- split_nil_blank.
    split; [by intros [= ->] | by intros ->].
  - split.
    + intros Hvoc. apply Forall_forall. intros s Hs.
      rewrite <- is_whitespace_lower, <- split_nil_blank.
      destruct (split (lower s)) as [|w ws] eqn:Hsplit; [reflexivity|].
      assert (Hw : w ∈ vocabulary (tokenized_sentences sentences)).
      { apply elem_of_vocabulary. exists (w :: ws). split; [|by left].
        unfold tokenized_sentences. apply list_elem_of_In, in_map_iff.
        exists s. split; [exact Hsplit | by apply list_elem_of_In]. }
      rewrite Hvoc in Hw. by apply elem_of_nil in Hw.
    + intros Hall.
      destruct (vocabulary (tokenized_sentences sentences)) as [|w voc] eqn:Hvoc;
        [reflexivity|].
      assert (Hw : w ∈ vocabulary (tokenized_sentences sentences))
        by (rewrite Hvoc; by left).
      apply elem_of_vocabulary in Hw as (ws & Hws & Hw).
      apply list_elem_of_In, in_map_iff in Hws as (s & <- & Hs).
      apply list_elem_of_In in Hs. rewrite Forall_forall in Hall.
      specialize (Hall s Hs).
      rewrite <- is_whitespace_lower, <- split_nil_blank in Hall.
      rewrite Hall in Hw. by apply elem_of_nil in Hw.
Qed.

Lemma clean_token_split w : clean_token w -> split (lower w) = [w].
Proof.
  intros (Hne & Hws & _ & Hlow). rewrite Hlow.
  rewrite <- (app_empty_r w) at 1.
  by rewrite (split_word w "" Hne Hws I).
Qed.

Lemma tokenized_of_clean ws :
  Forall clean_token ws -> tokenized_sentences ws = map (fun w => [w]) ws.
Proof.
  unfold tokenized_sentences. induction 1 as [|w ws Hw _ IH]; [reflexivity|].
  cbn [map]. by rewrite (clean_token_split w Hw), IH.
Qed.

Lemma concat_singletons (ws : list string) : concat (map (fun w => [w]) ws) = ws.
Proof. induction ws as [|w ws IH]; [reflexivity|]. cbn. by rewrite IH. Qed.

Lemma sorted_fixed l : Sorted le l -> sorted l = l.
Proof.
  intros Hl. unfold le in *.
  apply (Sorted_unique String.le); [apply sorted_Sorted | exact Hl |].
  apply sorted_perm.
Qed.

Lemma vocabulary_words_clean sentences :
  Forall clean_token (vocabulary (tokenized_sentences sentences)).
Proof.
  apply Forall_forall. intros w Hw.
  apply elem_of_vocabulary in Hw as (ws & Hws & Hw).
  pose proof (tokens_clean sentences) as Hall.
  rewrite Forall_forall in Hall. specialize (Hall ws Hws).
  rewrite Forall_forall in Hall. by apply Hall.
Qed.

(** The vocabulary is a fixed point of the tokenizer: taken as a corpus
    of one-word sentences, each vocabulary word is its own single token,
    and the vocabulary of that corpus is the vocabulary again. *)
Theorem vocabulary_idempotent (sentences : list string) :
  let voc := vocabulary (tokenized_sentences sentences) in
  tokenized_sentences voc = map (fun w => [w]) voc /\
  vocabulary (tokenized_sentences voc) = voc.
Proof.
  cbv zeta. set (voc := vocabulary (tokenized_sentences sentences)).
  assert (Htok : tokenized_sentences voc = map (fun w => [w]) voc).
  { apply tokenized_of_clean, vocabulary_words_clean. }
  split; [exact Htok|].
  rewrite Htok. unfold vocabulary at 1, word_set.
  rewrite concat_singletons.
  rewrite (sorted_order_irrelevant _ voc).
  - apply sorted_fixed. unfold voc, vocabulary. apply sorted_Sorted.
  - apply elements_list_to_set, vocabulary_NoDup.
Qed.

(** The vocabulary depends only on which sentences the corpus holds,
    not on their order or on how often each is repeated. *)
Theorem vocabulary_same_sentences (corpus1 corpus2 : list string) :
  (forall s, s ∈ corpus1 <-> s ∈ corpus2) ->
  vocabulary (tokenized_sentences corpus1)
  = vocabulary (tokenized_sentences corpus2).
Proof.
  intros Hsame. unfold vocabulary. f_equal. f_equal.
  apply set_eq. intros w. unfold word_set.
  rewrite !elem_of_list_to_set, !elem_of_concat.
  unfold tokenized_sentences.
  split; intros (ws & Hws & Hw); exists ws; (split; [|exact Hw]);
    apply list_elem_of_In, in_map_iff in Hws as (s & <- & Hs);
    apply list_elem_of_In, in_map_iff; exists s; (split; [reflexivity|]);
    apply list_elem_of_In, Hsame, list_elem_of_In, Hs.
Qed.

Lemma vocabulary_same_sentences_witness :
  vocabulary (tokenized_sentences ["Deep learning"; "I love AI"])
  = vocabulary (tokenized_sentences ["I love AI"; "Deep learning"; "I love AI"]).
Proof.
  apply vocabulary_same_sentences. intros s.
  rewrite !elem_of_cons, !elem_of_nil. tauto.
Defined.

Lemma lt_irrefl a : ~ lt a a.
Proof. by intros [_ Hne]. Qed.

Lemma lt_trans a b c : lt a b -> lt b c -> lt a c.
Proof.
  unfold lt, le. intros [Hab Hne] [Hbc _]. split; [by etrans|].
  intros ->. apply Hne. by apply (anti_symm String.le).
Qed.

(** Of two strictly ascending lists, one whose elements all occur in
    the other is obtained from it by leaving elements out. *)
Lemma ascending_subset_sublist l2 : forall l1,
  StronglySorted lt l1 -> StronglySorted lt l2 ->
  (forall x, x ∈ l1 -> x ∈ l2) -> sublist l1 l2.
Proof.
  induction l2 as [|y l2 IH]; intros l1 H1 H2 Hsub.
  - destruct l1 as [|x l1]; [constructor|].
    specialize (Hsub x (list_elem_of_here _ _)). by apply elem_of_nil in Hsub.
  - destruct l1 as [|x l1]; [apply sublist_nil_l|].
    apply StronglySorted_inv in H1 as [H1 Hx].
    apply StronglySorted_inv in H2 as [H2 Hy].
    rewrite Forall_forall in Hx, Hy.
    destruct (decide (x = y)) as [->|Hne].
    + apply sublist_skip, IH; [exact H1 | exact H2 |].
      intros z Hz. pose proof (Hx z Hz) as Hlt.
      specialize (Hsub z (list_elem_of_further _ _ _ Hz)).
      apply elem_of_cons in Hsub as [->|Hin]; [|exact Hin].
      by apply lt_irrefl in Hlt.
    + assert (Hyx : lt y x).
      { specialize (Hsub x (list_elem_of_here _ _)).
        apply elem_of_cons in Hsub as [->|Hin]; [done | by apply Hy]. }
      apply sublist_cons, IH; [by constructor; [|apply Forall_forall] | exact H2 |].
      intros z Hz. pose proof (Hsub z Hz) as Hin.
      apply elem_of_cons in Hin as [->|Hin]; [|exact Hin].
      exfalso. apply elem_of_cons in Hz as [->|Hz].
      * by apply lt_irrefl in Hyx.
      * apply (lt_irrefl y). eapply lt_trans; [exact Hyx | by apply Hx].
Qed.

(** Growing the corpus only adds vocabulary words: the vocabulary of a
    part of the corpus is the vocabulary of the whole with some words
    left out (their relative order kept, their indices possibly
    shifted), and the whole vocabulary is the union of the parts'.  The
    vocabulary is never longer than the corpus has tokens. *)
Theorem vocabulary_grows_with_corpus (corpus1 corpus2 : list string) :
  let voc1 := vocabulary (tokenized_sentences corpus1) in
  let voc2 := vocabulary (tokenized_sentences corpus2) in
  let voc := vocabulary (tokenized_sentences (corpus1 ++ corpus2)) in
  sublist voc1 voc /\ sublist voc2 voc /\
  (forall w, w ∈ voc <-> w ∈ voc1 \/ w ∈ voc2) /\
  (length voc1 <= length (concat (tokenized_sentences corpus1)))%nat.
Proof.
  cbv zeta.
  assert (Hunion : forall w,
    w ∈ vocabulary (tokenized_sentences (corpus1 ++ corpus2)) <->
    w ∈ vocabulary (tokenized_sentences corpus1) \/
    w ∈ vocabulary (tokenized_sentences corpus2)).
  { intros w. rewrite !elem_of_vocabulary. unfold tokenized_sentences.
    rewrite map_app. split.
    - intros (ws & Hws & Hw).
      apply elem_of_app in Hws as [Hws|Hws]; [left | right]; by exists ws.
    - intros [(ws & Hws & Hw)|(ws & Hws & Hw)]; exists ws;
        (split; [apply elem_of_app; auto | exact Hw]). }
  split; [|split; [|split; [exact Hunion|]]].
  - apply ascending_subset_sublist; try apply vocabulary_ascending.
    intros w Hw. apply Hunion. by left.
  - apply ascending_subset_sublist; try apply vocabulary_ascending.
    intros w Hw. apply Hunion. by right.
  - apply submseteq_length, NoDup_submseteq; [apply vocabulary_NoDup|].
    intros w Hw. unfold vocabulary, word_set in Hw.
    by rewrite sorted_perm, elem_of_elements, elem_of_list_to_set in Hw.
Qed.

Lemma starts_blank_app_rest rest c b :
  isspace c = true -> starts_blank rest -> starts_blank (rest +:+ String c b).
Proof. intros Hc. by destruct rest. Qed.

Lemma is_whitespace_app a b :
  is_whitespace (a +:+ b) = is_whitespace a && is_whitespace b.
Proof. apply all_chars_app. Qed.

(** The words of two texts put together with a whitespace character
    between them. *)
Lemma words_of_glue a wa b wb c :
  isspace c = true -> words_of a wa -> words_of b wb ->
  words_of (a +:+ String c b) (wa ++ wb).
Proof.
  intros Hc Ha Hb.
  induction Ha as [sp Hsp | sp w rest ws Hsp Hne Hw Hrest _ IH].
  - assert (Hpre : forall x, is_whitespace x = true ->
              is_whitespace (sp +:+ String c x) = true).
    { intros x Hx. rewrite is_whitespace_app, Hsp. unfold is_whitespace in *.
      cbn [all_chars]. by rewrite Hc, Hx. }
    cbn [app]. destruct Hb as [spb Hspb | spb wb0 restb wsb Hspb Hneb Hwb Hrestb Hwsb].
    + apply words_none. by apply Hpre.
    + replace (sp +:+ String c (spb +:+ wb0 +:+ restb))
        with ((sp +:+ String c spb) +:+ wb0 +:+ restb)
        by (by rewrite app_assoc', app_cons).
      apply words_next; try assumption. by apply Hpre.
  - rewrite !app_assoc'. cbn [app]. apply words_next; try assumption.
    by apply starts_blank_app_rest.
Qed.

(** Two sentences written as one, with a space between them, have the
    tokens of the first followed by the tokens of the second; merging
    sentences in this way does not change the vocabulary. *)
Theorem joined_sentences_same_vocabulary (a b : string) :
  tokenized_sentences [a +:+ " " +:+ b]
  = [concat (tokenized_sentences [a; b])] /\
  vocabulary (tokenized_sentences [a +:+ " " +:+ b])
  = vocabulary (tokenized_sentences [a; b]).
Proof.
  assert (Htok : tokenized_sentences [a +:+ " " +:+ b]
                 = [concat (tokenized_sentences [a; b])]).
  { unfold tokenized_sentences. cbn [map concat]. rewrite app_nil_r.
    f_equal. symmetry. apply words_of_unique.
    rewrite lower_app. change (lower (" " +:+ b)) with (String " " (lower b)).
    apply words_of_glue; [reflexivity | apply split_words ..]. }
  split; [exact Htok|].
  unfold vocabulary, word_set. rewrite Htok. cbn [concat].
  by rewrite app_nil_r.
Qed.

End TokenizerLaws.

(** ** More on the one-hot comprehension *)

Module OneHotLaws.
Import OneHot OneHotFacts.

(** The comprehension on any list of words, repeated ones included. *)
Lemma one_hot_from_last n words : forall i acc,
  (i + length words <= n)%nat ->
  exists tbl, one_hot_from n i words acc = Some tbl /\
    (forall w, w ∉ words -> tbl !! w = acc !! w) /\
    (forall w, w ∈ words -> exists k, tbl !! w = Some (basis n k)) /\
    (forall k w, words !! k = Some w ->
       (forall j, (k < j)%nat -> words !! j <> Some w) ->
       tbl !! w = Some (basis n (i + k))).
Proof.
  induction words as [|word rest IH]; intros i acc Hlen.
  - exists acc. split; [reflexivity|]. split; [done|]. split.
    + intros w Hw. by apply elem_of_nil in Hw.
    + intros k w Hk. by destruct k.
  - cbn [length] in Hlen. cbn [one_hot_from]. rewrite eye_lookup by lia.
    destruct (IH (S i) (<[word := basis n i]> acc)) as (tbl & Heq & Hout & Hin & Hlast);
      [lia|].
    exists tbl. split; [exact Heq|]. split; [|split].
    + intros w Hw. apply not_elem_of_cons in Hw as [Hne Hw].
      rewrite (Hout w Hw). by rewrite lookup_insert_ne.
    + intros w Hw. destruct (decide (w ∈ rest)) as [Hrest|Hrest]; [by apply Hin|].
      apply elem_of_cons in Hw as [->|Hw]; [|done].
      exists i. by rewrite (Hout word Hrest), lookup_insert_eq.
    + intros [|k] w Hk Hlater.
      * injection Hk as <-.
        assert (Hrest : word ∉ rest).
        { intros [j Hj]%list_elem_of_lookup. apply (Hlater (S j)); [lia | exact Hj]. }
        rewrite (Hout word Hrest), lookup_insert_eq. f_equal. f_equal. lia.
      * rewrite (Hlast k w Hk).
        -- f_equal. f_equal. lia.
        -- intros j Hj. apply (Hlater (S j)). lia.
Qed.

(** The one-hot comprehension never indexes the identity matrix out of
    range, whatever list of words it is given.  Its keys are the words
    of the list, every vector has the length of the list, and a word
    that occurs more than once keeps the vector of its last position. *)
Theorem one_hot_any_words (words : list string) :
  exists tbl, one_hot_vectors words = Some tbl /\
    (forall w, is_Some (tbl !! w) <-> w ∈ words) /\
    (forall w v, tbl !! w = Some v -> length v = length words) /\
    (forall i w, words !! i = Some w ->
       (forall j, (i < j)%nat -> words !! j <> Some w) ->
       tbl !! w = Some (basis (length words) i)).
Proof.
  unfold one_hot_vectors.
  destruct (one_hot_from_last (length words) words 0 ∅)
    as (tbl & Heq & Hout & Hin & Hlast); [lia|].
  exists tbl. split; [exact Heq|]. split; [|split].
  - intros w. split.
    + intros Hsome. destruct (decide (w ∈ words)) as [Hw|Hw]; [exact Hw|].
      rewrite (Hout w Hw), lookup_empty in Hsome. by destruct Hsome.
    + intros Hw. destruct (Hin w Hw) as [k Hk]. by rewrite Hk.
  - intros w v Hv. destruct (decide (w ∈ words)) as [Hw|Hw].
    + destruct (Hin w Hw) as [k Hk]. rewrite Hk in Hv.
      injection Hv as <-. apply basis_length.
    + by rewrite (Hout w Hw), lookup_empty in Hv.
  - exact Hlast.
Qed.

End OneHotLaws.

(** ** More on the embedding cells: outcomes and effects *)

Module EmbeddingsLaws.
Import Tokenizer Embeddings EmbeddingsFacts NpRandom NpRandomFacts.

Section Cells.
Context `{NP : NumPy} `{GE : !Gensim} `{TR : Transformers} `{OA : OpenAI}.

Lemma skip_0 (st : rng) : skip 0 st = st.
Proof. reflexivity. Qed.

Lemma rand_draw n (st : rng) : rand n st = (fst (draw n st), skip n st).
Proof. unfold rand, skip. by destruct (draw n st). Qed.

(** The GloVe comprehension reads the stream block by block. *)
Lemma glove_table_stream words : forall acc st,
  NoDup words ->
  snd (glove_table words acc st) = skip (10 * length words) st /\
  (forall i w, words !! i = Some w ->
     fst (glove_table words acc st) !! w
     = Some (fst (draw 10 (skip (10 * i) st)))).
Proof.
  induction words as [|word rest IH]; intros acc st Hnd.
  - split; [reflexivity|]. intros i w Hi. by destruct i.
  - apply NoDup_cons in Hnd as [Hfresh Hnd].
    cbn [glove_table length]. rewrite rand_draw.
    destruct (IH (<[word := fst (draw 10 st)]> acc) (skip 10 st) Hnd)
      as [Hstate Hblocks].
    split.
    + rewrite Hstate, <- skip_add.
      by replace (10 * S (length rest))%nat with (10 + 10 * length rest)%nat by lia.
    + intros [|i] w Hi.
      * injection Hi as <-.
        rewrite (proj2 (glove_table_spec rest _ _) word Hfresh).
        by rewrite lookup_insert_eq.
      * rewrite (Hblocks i w Hi), <- skip_add.
        by replace (10 * S i)%nat with (10 + 10 * i)%nat by lia.
Qed.

(** The GloVe placeholder gives the word at index [i] of the vocabulary
    the ten stream values from position [10 * i] on, so no two words
    share a draw, and it leaves the generator [10 * |vocabulary|] draws
    further. *)
Theorem glove_vectors_are_stream_blocks (sentences : list string) (st : rng) :
  let voc := vocabulary (tokenized_sentences sentences) in
  snd (glove_vectors voc st) = skip (10 * length voc) st /\
  (forall i w, voc !! i = Some w ->
     fst (glove_vectors voc st) !! w
     = Some (fst (draw 10 (skip (10 * i) st)))).
Proof.
  cbv zeta. unfold glove_vectors.
  apply glove_table_stream, TokenizerFacts.vocabulary_NoDup.
Qed.

(** What the Word2Vec comprehension returns. *)
Lemma word2vec_table_result model words : forall acc,
  match word2vec_table model words acc with
  | inr tbl =>
      (forall w, w ∈ words ->
         exists v, wv_getitem model w = inr v /\ tbl !! w = Some v) /\
      (forall w, w ∉ words -> tbl !! w = acc !! w)
  | inl e =>
      exists i w, words !! i = Some w /\ wv_getitem model w = inl e /\
        forall j w', (j < i)%nat -> words !! j = Some w' ->
          exists v, wv_getitem model w' = inr v
  end.
Proof.
  induction words as [|word rest IH]; intros acc.
  - cbn [word2vec_table]. split; [|done].
    intros w Hw. by apply elem_of_nil in Hw.
  - cbn [word2vec_table].
    destruct (wv_getitem model word) as [e|v] eqn:Hword; cbn [result_bind].
    + exists 0%nat, word. split; [reflexivity|]. split; [exact Hword|].
      intros j w' Hj. lia.
    + specialize (IH (<[word := v]> acc)).
      destruct (word2vec_table model rest _) as [e|tbl].
      * destruct IH as (i & w & Hi & He & Hbefore).
        exists (S i), w. split; [exact Hi|]. split; [exact He|].
        intros [|j] w' Hj Hw'.
        -- injection Hw' as <-. by exists v.
        -- apply (Hbefore j w'); [lia | exact Hw'].
      * destruct IH as [Hin Hout]. split.
        -- intros w Hw.
           destruct (decide (w ∈ rest)) as [Hrest|Hrest]; [by apply Hin|].
           apply elem_of_cons in Hw as [->|Hw]; [|done].
           exists v. split; [exact Hword|].
           by rewrite (Hout word Hrest), lookup_insert_eq.
        -- intros w Hw. apply not_elem_of_cons in Hw as [Hne Hw].
           rewrite (Hout w Hw). by rewrite lookup_insert_ne.
Qed.

(** The Word2Vec comprehension raises exactly when the lookup of some
    word raises, with the exception of the first such word in list
    order; otherwise its table holds, for each word of the list, the
    vector the model gave for it, and nothing else. *)
Theorem word2vec_table_outcome (model : w2v_model) (words : list string) :
  match word2vec_table model words ∅ with
  | inr tbl =>
      (forall w, w ∈ words ->
         exists v, wv_getitem model w = inr v /\ tbl !! w = Some v) /\
      (forall w, w ∉ words -> tbl !! w = None)
  | inl e =>
      exists i w, words !! i = Some w /\ wv_getitem model w = inl e /\
        forall j w', (j < i)%nat -> words !! j = Some w' ->
          exists v, wv_getitem model w' = inr v
  end.
Proof.
  pose proof (word2vec_table_result model words ∅) as H.
  destruct (word2vec_table model words ∅) as [e|tbl]; [exact H|].
  destruct H as [Hin Hout]. split; [exact Hin|].
  intros w Hw. by rewrite (Hout w Hw).
Qed.

(** *** What each cell does to the world *)

Lemma cell_one_hot_effect tokenized (w : world) :
  exists lines,
    snd (cell_one_hot tokenized w)
    = World (generator w) (environ w) (stdout w ++ lines) /\
    forall names, fst (cell_one_hot tokenized w) = inr names ->
      fst names = vocabulary tokenized.
Proof.
  unfold cell_one_hot, bind, call, print, ret.
  destruct (OneHot.one_hot_vectors (vocabulary tokenized)) as [tbl|].
  - cbn [fst snd generator environ stdout].
    destruct (dict_getitem tbl "learning") as [e|v];
      cbn [fst snd generator environ stdout].
    + exists [("Vocabulary:", Words (vocabulary tokenized))]. by split.
    + exists [("Vocabulary:", Words (vocabulary tokenized));
              ("One-Hot Encoding Example:", Floats v)].
      rewrite <- app_assoc. split; [reflexivity | by intros names [= <-]].
  - exists []. rewrite app_nil_r. by destruct w.
Qed.

Lemma cell_word2vec_effect tokenized voc (w : world) :
  (exists e, cell_word2vec tokenized voc w = (inl e, w)) \/
  (exists tbl v, cell_word2vec tokenized voc w
     = (inr tbl, World (generator w) (environ w)
          (stdout w ++ [("Word2Vec Embedding Example (learning):", Floats32 v)]))).
Proof.
  unfold cell_word2vec, bind, call, print, ret.
  destruct (word2vec_vectors tokenized voc) as [e|tbl]; [left; by exists e|].
  destruct (dict_getitem tbl "learning") as [e|v]; [left; by exists e|].
  right. by exists tbl, v.
Qed.

Lemma cell_glove_effect voc (w : world) :
  let st' := snd (glove_vectors voc (generator w)) in
  (exists e, cell_glove voc w = (inl e, World st' (environ w) (stdout w))) \/
  (exists tbl v, cell_glove voc w
     = (inr tbl, World st' (environ w)
          (stdout w ++ [("GloVe Embedding Example (learning):", Floats v)]))).
Proof.
  cbv zeta. unfold cell_glove, bind, call, print, ret, with_generator.
  destruct (glove_vectors voc (generator w)) as [tbl st'].
  cbn [fst snd generator environ stdout].
  destruct (dict_getitem tbl "learning") as [e|v]; [left; by exists e|].
  right. by exists tbl, v.
Qed.

Lemma cell_bert_effect (w : world) :
  (exists e, cell_bert w = (inl e, w)) \/
  (exists v, cell_bert w
     = (inr tt, World (generator w) (environ w)
          (stdout w ++ [("BERT Embedding Shape (first word):", v)]))).
Proof.
  unfold cell_bert, bind, call, print.
  destruct (pipeline _ _ _) as [e|p]; [left; by exists e|].
  destruct (pipeline_call p _) as [e|outputs]; [left; by exists e|].
  destruct (list_getitem outputs 0) as [e|emb]; [left; by exists e|].
  destruct (list_getitem emb 1) as [e|token]; [left; by exists e|].
  right. by eexists.
Qed.

Lemma cell_openai_effect (w : world) :
  (exists e, cell_openai w = (inl e, w)) \/
  (exists v, cell_openai w
     = (inr tt, World (generator w) (environ w)
          (stdout w ++ [("OpenAI Embedding Example (simulated):", v)]))).
Proof.
  unfold cell_openai, bind, call, print, getenv.
  destruct (AzureOpenAI _ _ _) as [e|client]; [left; by exists e|].
  destruct (embeddings_create client _ _) as [e|data]; [left; by exists e|].
  destruct (list_getitem data 0) as [e|emb]; [left; by exists e|].
  right. by eexists.
Qed.

(** A cell that raises has printed nothing: the Word2Vec, BERT and
    hosted cells leave the world exactly as they found it, and the GloVe
    cell has only moved the generator on.  A cell that ends normally has
    added exactly its one line and changed nothing else (the GloVe cell:
    and moved the generator on). *)
Theorem failing_cells_print_nothing
    (tokenized : list (list string)) (voc : list string) (w : world) :
  (forall e w', cell_word2vec tokenized voc w = (inl e, w') -> w' = w) /\
  (forall e w', cell_bert w = (inl e, w') -> w' = w) /\
  (forall e w', cell_openai w = (inl e, w') -> w' = w) /\
  (forall e w', cell_glove voc w = (inl e, w') ->
     stdout w' = stdout w /\ environ w' = environ w) /\
  (forall tbl w', cell_word2vec tokenized voc w = (inr tbl, w') ->
     exists v, w' = World (generator w) (environ w)
       (stdout w ++ [("Word2Vec Embedding Example (learning):", v)])) /\
  (forall u w', cell_bert w = (inr u, w') ->
     exists v, w' = World (generator w) (environ w)
       (stdout w ++ [("BERT Embedding Shape (first word):", v)])) /\
  (forall u w', cell_openai w = (inr u, w') ->
     exists v, w' = World (generator w) (environ w)
       (stdout w ++ [("OpenAI Embedding Example (simulated):", v)])) /\
  (forall tbl w', cell_glove voc w = (inr tbl, w') ->
     exists v, w' = World (snd (glove_vectors voc (generator w))) (environ w)
       (stdout w ++ [("GloVe Embedding Example (learning):", v)])).
Proof.
  split; [|split; [|split; [|split; [|split; [|split; [|split]]]]]].
  - intros e w' H. destruct (cell_word2vec_effect tokenized voc w)
      as [[e0 H0]|(tbl & v & H0)]; congruence.
  - intros e w' H. destruct (cell_bert_effect w) as [[e0 H0]|(v & H0)]; congruence.
  - intros e w' H. destruct (cell_openai_effect w) as [[e0 H0]|(v & H0)]; congruence.
  - intros e w' H. destruct (cell_glove_effect voc w) as [[e0 H0]|(tbl & v & H0)];
      rewrite H0 in H; [|discriminate H].
    injection H as _ <-. by split.
  - intros tbl w' H. destruct (cell_word2vec_effect tokenized voc w)
      as [[e0 H0]|(tbl0 & v & H0)]; [congruence|].
    exists (Floats32 v). congruence.
  - intros u w' H. destruct (cell_bert_effect w) as [[e0 H0]|(v & H0)];
      [congruence|]. exists v. congruence.
  - intros u w' H. destruct (cell_openai_effect w) as [[e0 H0]|(v & H0)];
      [congruence|]. exists v. congruence.
  - intros tbl w' H. destruct (cell_glove_effect voc w)
      as [[e0 H0]|(tbl0 & v & H0)]; [congruence|].
    exists (Floats v). congruence.
Qed.

(** The GloVe cell on a vocabulary: it always takes [10 * |vocabulary|]
    draws from the global generator, also when it then raises; it raises
    KeyError, printing nothing, when "learning" is not a vocabulary
    word, and otherwise prints the ten stream values that belong to the
    index of "learning". *)
Theorem glove_cell_outcome (sentences : list string) (w : world) :
  let voc := vocabulary (tokenized_sentences sentences) in
  let out := cell_glove voc w in
  generator (snd out) = skip (10 * length voc) (generator w) /\
  environ (snd out) = environ w /\
  ("learning" ∉ voc ->
     fst out = inl (KeyError "learning") /\ stdout (snd out) = stdout w) /\
  (forall i, voc !! i = Some "learning" ->
     (exists tbl, fst out = inr tbl) /\
     stdout (snd out)
     = stdout w ++ [("GloVe Embedding Example (learning):",
                     Floats (fst (draw 10 (skip (10 * i) (generator w)))))]).
Proof.
  cbv zeta. set (voc := vocabulary (tokenized_sentences sentences)).
  assert (Hnd : NoDup voc) by apply TokenizerFacts.vocabulary_NoDup.
  destruct (glove_table_stream voc ∅ (generator w) Hnd) as [Hstate Hblocks].
  pose proof (proj2 (glove_table_spec voc ∅ (generator w))) as Hout.
  unfold cell_glove, bind, call, print, ret, with_generator, glove_vectors, dict_getitem.
  destruct (glove_table voc ∅ (generator w)) as [tbl st'].
  cbn [fst snd generator environ stdout] in *.
  split; [|split; [|split]].
  - by destruct (tbl !! "learning").
  - by destruct (tbl !! "learning").
  - intros Hnot. by rewrite (Hout _ Hnot), lookup_empty.
  - intros i Hi. rewrite (Hblocks i _ Hi). cbn [fst snd stdout]. eauto.
Qed.

(** The Word2Vec cell when training returns a model (under the contract
    assumed of gensim): it raises KeyError, printing nothing, when
    "learning" is not a vocabulary word, and otherwise prints the vector
    of length 10 the model holds for "learning". *)
Theorem word2vec_cell_outcome (sentences : list string)
    (model : w2v_model) (w : world) :
  gensim_contract ->
  let tokenized := tokenized_sentences sentences in
  let voc := vocabulary tokenized in
  Word2Vec tokenized 10 2 1 1 1 = inr model ->
  ("learning" ∉ voc ->
     cell_word2vec tokenized voc w = (inl (KeyError "learning"), w)) /\
  ("learning" ∈ voc ->
     exists tbl v, wv_getitem model "learning" = inr v /\ length v = 10%nat /\
       cell_word2vec tokenized voc w
       = (inr tbl, World (generator w) (environ w)
            (stdout w ++ [("Word2Vec Embedding Example (learning):",
                           Floats32 v)]))).
Proof.
  intros Hcontract tokenized voc Htrain.
  assert (Hall : forall word, word ∈ voc ->
            exists v, wv_getitem model word = inr v /\ length v = 10%nat).
  { intros word Hword. apply vocabulary_word_occurs in Hword as [Hocc Hcount].
    exact (Hcontract _ _ _ _ _ _ model word Htrain Hocc Hcount). }
  pose proof (word2vec_table_result model voc ∅) as Htable.
  unfold cell_word2vec, word2vec_vectors, bind, call, print, ret, dict_getitem.
  rewrite Htrain. cbn [result_bind].
  destruct (word2vec_table model voc ∅) as [e|tbl].
  { destruct Htable as (i & word & Hi & He & _).
    destruct (Hall word) as (v & Hv & _); [by eapply list_elem_of_lookup_2|].
    congruence. }
  destruct Htable as [Hin Hout]. split.
  - intros Hnot. by rewrite (Hout _ Hnot), lookup_empty.
  - intros Hlearning. destruct (Hin _ Hlearning) as (v & Hv & Hlook).
    destruct (Hall _ Hlearning) as (v' & Hv' & Hlen).
    exists tbl, v. rewrite Hlook. split; [exact Hv|].
    split; [congruence | reflexivity].
Qed.

(** The whole run, with set-up and [%dotenv] cells that do not draw from
    the global generator and only add to what is printed: lines already
    printed stay as they are, in place, and new ones are only added
    after them; the global generator is either where it was or
    [10 * |vocabulary|] draws further, the latter whenever the run ends
    normally.  The GloVe cell is the only one to draw from it. *)
Theorem notebook_run_effects (setup dotenv : Py unit)
    (sentences : list string) (w : world) :
  FullRun.leaves_generator setup -> FullRun.leaves_generator dotenv ->
  let voc := vocabulary (tokenized_sentences sentences) in
  let out := FullRun.notebook_run setup dotenv sentences w in
  stdout w `prefix_of` stdout (snd out) /\
  (generator (snd out) = generator w \/
   generator (snd out) = skip (10 * length voc) (generator w)) /\
  ((exists u, fst out = inr u) ->
   generator (snd out) = skip (10 * length voc) (generator w)).
Proof.
  intros Hsetup Hdotenv. cbv zeta. unfold FullRun.notebook_run, bind. cbv zeta.
  set (tokenized := tokenized_sentences sentences).
  destruct (Hsetup w) as [Hgen0 Hout0].
  destruct (setup w) as [[e|u0] w0]; cbn [fst snd] in *.
  { split; [exact Hout0|]. split; [by left | by intros [u [=]]]. }
  rewrite <- Hgen0. clear Hgen0.
  destruct (cell_one_hot_effect tokenized w0) as (lines1 & Hw1 & Hnames).
  destruct (cell_one_hot tokenized w0) as [[e|names] w1]; cbn [fst snd] in *.
  { subst w1. cbn [stdout environ generator].
    split; [by apply prefix_app_r|].
    split; [by left | by intros [u [=]]]. }
  rewrite (Hnames names eq_refl). subst w1. clear Hnames.
  set (voc := vocabulary tokenized).
  destruct (cell_word2vec_effect tokenized voc
              (World (generator w0) (environ w0) (stdout w0 ++ lines1)))
    as [[e H2]|(tbl & v & H2)]; rewrite H2; clear H2;
    cbn [fst snd stdout environ generator].
  { split; [by apply prefix_app_r|].
    split; [by left | by intros [u [=]]]. }
  assert (Hstate : snd (glove_vectors voc (generator w0))
                   = skip (10 * length voc) (generator w0)).
  { apply glove_table_stream, TokenizerFacts.vocabulary_NoDup. }
  match goal with |- context [cell_glove voc ?w2] =>
    destruct (cell_glove_effect voc w2) as [[e H3]|(tbl3 & v3 & H3)];
      rewrite H3; clear H3; cbn [fst snd stdout environ generator];
      rewrite Hstate
  end.
  { split; [by do 2 apply prefix_app_r|].
    split; [by right | by intros [u [=]]]. }
  match goal with |- context [cell_bert ?w3] =>
    destruct (cell_bert_effect w3) as [[e H4]|(v4 & H4)];
      rewrite H4; clear H4; cbn [fst snd stdout environ generator]
  end.
  { split; [by do 3 apply prefix_app_r|]. split; [by right | done]. }
  match goal with |- context [dotenv ?w4] =>
    destruct (Hdotenv w4) as [Hgen5 Hout5];
      destruct (dotenv w4) as [[e|u5] w5];
      cbn [fst snd stdout environ generator] in *
  end.
  { split; [etrans; [|exact Hout5]; by do 4 apply prefix_app_r|].
    rewrite Hgen5. split; [by right | done]. }
  assert (Hout : stdout w `prefix_of` stdout w5).
  { etrans; [|exact Hout5]. by do 4 apply prefix_app_r. }
  destruct (cell_openai_effect w5) as [[e H6]|(v6 & H6)]; rewrite H6; clear H6;
    cbn [fst snd stdout environ generator]; rewrite Hgen5.
  - split; [exact Hout|]. split; [by right | done].
  - split; [by apply prefix_app_r|]. split; [by right | done].
Qed.

End Cells.
End EmbeddingsLaws.

(** The Word2Vec cell on the scenario corpus with the stand-in libraries. *)
Lemma word2vec_cell_outcome_witness :
  exists model,
    @Word2Vec Standin.numpy Standin.gensim
      (Tokenizer.tokenized_sentences Tokenizer.scenario_corpus) 10 2 1 1 1
    = inr model /\
    let tokenized := Tokenizer.tokenized_sentences Tokenizer.scenario_corpus in
    let voc := Tokenizer.vocabulary tokenized in
    let w := Standin.world_with_credentials in
    ("learning" ∉ voc ->
       @Embeddings.cell_word2vec Standin.numpy Standin.gensim tokenized voc w
       = (inl (KeyError "learning"), w)) /\
    ("learning" ∈ voc ->
       exists tbl v,
         @wv_getitem Standin.numpy Standin.gensim model "learning" = inr v /\
         length v = 10%nat /\
         @Embeddings.cell_word2vec Standin.numpy Standin.gensim tokenized voc w
         = (inr tbl,
            Embeddings.World (Embeddings.generator w) (Embeddings.environ w)
              (Embeddings.stdout w
               ++ [("Word2Vec Embedding Example (learning):",
                    Embeddings.Floats32 v)]))).
Proof.
  eexists. split; [vm_compute; reflexivity|].
  eapply (@EmbeddingsLaws.word2vec_cell_outcome Standin.numpy Standin.gensim
            Tokenizer.scenario_corpus _ Standin.world_with_credentials
            EmbeddingsFacts.standin_gensim_contract).
  vm_compute. reflexivity.
Defined.

(** ** More on the vector-search cell *)

Module VectorSearchLaws.
Import NpRandom NpRandomFacts VectorSearch VectorSearchFacts.

Section Cell.
Context `{NP : NumPy} `{FA : !Faiss}.

Lemma draw_rows_add r1 r2 c : forall st,
  fst (draw_rows (r1 + r2) c st)
  = fst (draw_rows r1 c st) ++ fst (draw_rows r2 c (skip (r1 * c) st)).
Proof.
  induction r1 as [|r1 IH]; intros st; [reflexivity|].
  cbn [Nat.add Nat.mul]. rewrite !draw_rows_S. cbn [fst app].
  by rewrite IH, skip_add.
Qed.

(** Drawing the database and then the queries is drawing one matrix of
    [nb + nq] rows and cutting it after row [nb]: the queries are the
    rows that follow the database in the stream.  The database does not
    depend on the number of queries or on [k]. *)
Theorem database_and_queries_are_one_draw (seed : N) (d nb nq k : nat) :
  let r := cell seed d nb nq k in
  rows (database r) ++ rows (queries r)
  = rows (astype (fst (random ((nb + nq)%nat, d) (np_random_seed seed)))) /\
  (forall nq' k', database (cell seed d nb nq' k') = database r).
Proof.
  cbv zeta. split.
  - rewrite cell_database, cell_queries, !random_fst.
    unfold astype. cbn [rows fst snd].
    by rewrite draw_rows_add, map_app.
  - intros nq' k'. by rewrite !cell_database.
Qed.

End Cell.
End VectorSearchLaws.

(** ** Index errors of the BERT and hosted cells *)

Module EmbeddingsFrame.
Import Tokenizer Embeddings.

Section Cells.
Context `{NP : NumPy} `{GE : !Gensim} `{TR : Transformers} `{OA : OpenAI}.

(** Index errors.  When the BERT model loads and answers, the cell
    prints the length of the second token vector of the first output,
    and raises IndexError, printing nothing, when there is no output or
    the first output has fewer than two token vectors.  When the hosted
    client is built and answers, the cell prints the first embedding of
    the response, and raises IndexError when the response holds none. *)
Theorem index_errors_of_bert_and_hosted_cells (w : world) :
  (forall p outputs,
     pipeline "feature-extraction" "bert-base-uncased" "bert-base-uncased"
     = inr p ->
     pipeline_call p "Deep learning is a key technology for AI" = inr outputs ->
     cell_bert w
     = match outputs with
       | (_ :: token :: _) :: _ =>
           (inr tt, World (generator w) (environ w)
              (stdout w ++ [("BERT Embedding Shape (first word):",
                             Shape [length token])]))
       | _ => (inl IndexError, w)
       end) /\
  (forall client data,
     AzureOpenAI (environ w !! "AZURE_OPENAI_API_KEY") "2024-02-01"
       (environ w !! "AZURE_OPENAI_ENDPOINT") = inr client ->
     embeddings_create client "Deep learning is a key technology for AI"
       "demo-cosmos-rag-emb" = inr data ->
     cell_openai w
     = match data with
       | embedding :: _ =>
           (inr tt, World (generator w) (environ w)
              (stdout w ++ [("OpenAI Embedding Example (simulated):",
                             Floats embedding)]))
       | [] => (inl IndexError, w)
       end).
Proof.
  split.
  - intros p outputs Hp Hout. unfold cell_bert, bind, call, print, list_getitem.
    rewrite Hp, Hout. by destruct outputs as [|[|t0 [|token rest]] others].
  - intros client data Hclient Hdata.
    unfold cell_openai, bind, call, print, getenv, list_getitem.
    rewrite Hclient, Hdata. by destruct data.
Qed.

End Cells.
End EmbeddingsFrame.

(** ** Tokens over any alphabet *)

Module TextFacts.
Import Text.

Section Tokenizer.
Context `{A : Alphabet}.

(** What the scan returns: nonempty runs of characters that are not
    whitespace, each character taken from the word being read or from
    the text still to be read. *)
Lemma split_scan_tokens s : forall cur,
  Forall (fun c => isspace c = false) cur ->
  Forall (fun w : list letter => w <> [] /\ Forall (fun c => isspace c = false) w /\
                   forall c, c ∈ w -> c ∈ cur \/ c ∈ s)
         (split_scan cur s).
Proof.
  assert (Hword : forall cur rest : list letter, cur <> [] ->
            Forall (fun c => isspace c = false) cur ->
            rev cur <> [] /\ Forall (fun c => isspace c = false) (rev cur) /\
            forall c, c ∈ rev cur -> c ∈ cur \/ c ∈ rest).
  { intros cur rest Hne Hcur. split; [|split].
    - intros Hrev. apply Hne. by rewrite <- (rev_involutive cur), Hrev.
    - by apply Forall_rev.
    - intros c Hc. left. by apply list_elem_of_In, in_rev, list_elem_of_In. }
  induction s as [|c s IH]; intros cur Hcur.
  - cbn [split_scan]. destruct cur as [|c0 cur]; [constructor|].
    constructor; [|constructor]. by apply Hword.
  - cbn [split_scan]. destruct (isspace c) eqn:Hc.
    + assert (Hrest : Forall (fun w : list letter => w <> [] /\
                Forall (fun c => isspace c = false) w /\
                forall c0, c0 ∈ w -> c0 ∈ cur \/ c0 ∈ c :: s) (split_scan [] s)).
      { eapply Forall_impl; [apply (IH []); constructor|].
        intros w (Hne & Hw & Hin). split; [exact Hne|]. split; [exact Hw|].
        intros c0 Hc0. right. destruct (Hin c0 Hc0) as [Hnil|Hs].
        - by apply elem_of_nil in Hnil.
        - by right. }
      destruct cur as [|c0 cur]; [exact Hrest|].
      constructor; [by apply Hword | exact Hrest].
    + eapply Forall_impl; [apply (IH (c :: cur)); by constructor|].
      intros w (Hne & Hw & Hin). split; [exact Hne|]. split; [exact Hw|].
      intros c0 Hc0. destruct (Hin c0 Hc0) as [Hcur0|Hs].
      * apply elem_of_cons in Hcur0 as [->|Hcur0]; [right; by left | by left].
      * right. by right.
Qed.

Lemma split_tokens s :
  Forall (fun w : list letter => w <> [] /\ Forall (fun c => isspace c = false) w /\
                   forall c, c ∈ w -> c ∈ s) (split s).
Proof.
  eapply Forall_impl; [apply (split_scan_tokens s []); constructor|].
  intros w (Hne & Hw & Hin). split; [exact Hne|]. split; [exact Hw|].
  intros c Hc. destruct (Hin c Hc) as [Hnil|Hs]; [|exact Hs].
  by apply elem_of_nil in Hnil.
Qed.

Lemma tokens_settled sentences :
  lower_contract ->
  Forall (Forall settled_token) (tokenized_sentences sentences).
Proof.
  intros Hlower. unfold tokenized_sentences. apply Forall_forall.
  intros ws Hws. apply list_elem_of_In, in_map_iff in Hws as (s & <- & _).
  eapply Forall_impl; [apply split_tokens|].
  intros w (Hne & Hw & Hin). split; [exact Hne|]. split; [exact Hw|].
  by apply (Hlower s).
Qed.

Lemma elem_of_text_vocabulary w tokenized :
  w ∈ vocabulary tokenized <-> exists ws, ws ∈ tokenized /\ w ∈ ws.
Proof.
  unfold vocabulary.
  rewrite merge_sort_Permutation, elem_of_remove_dups.
  rewrite list_elem_of_In, in_concat. split.
  - intros (ws & H1 & H2). exists ws. by rewrite !list_elem_of_In.
  - intros (ws & H1 & H2). exists ws. by rewrite <- !list_elem_of_In.
Qed.

(** C9, amended.  Whatever the alphabet, under what [str.lower]
    guarantees: every token of every tokenized sentence, and hence
    every vocabulary entry, is nonempty, contains no whitespace
    character, and is left unchanged by lowercasing it again.  That it
    holds no character counted as uppercase is not part of this. *)
Theorem tokens_and_vocabulary_settled (sentences : list (list letter)) :
  lower_contract ->
  Forall (Forall settled_token) (tokenized_sentences sentences) /\
  Forall settled_token (vocabulary (tokenized_sentences sentences)).
Proof.
  intros Hlower. pose proof (tokens_settled sentences Hlower) as Hall.
  split; [exact Hall|].
  apply Forall_forall. intros w Hw.
  apply elem_of_text_vocabulary in Hw as (ws & Hws & Hw).
  rewrite Forall_forall in Hall. specialize (Hall ws Hws).
  rewrite Forall_forall in Hall. by apply Hall.
Qed.

End Tokenizer.

(** *** The 8-bit alphabet: the same tokens as [PyStr] gives *)

Lemma latin1_split_scan s : forall cur,
  @split_scan latin1 cur (list_ascii_of_string s)
  = map list_ascii_of_string (PyStr.split_scan cur s).
Proof.
  induction s as [|c s IH]; intros cur.
  - cbn. destruct cur; [reflexivity|].
    cbn [map]. by rewrite list_ascii_of_string_of_list_ascii.
  - cbn [list_ascii_of_string split_scan PyStr.split_scan].
    change (@isspace latin1 c) with (PyStr.isspace c).
    destruct (PyStr.isspace c); [|apply IH].
    destruct cur; [apply IH|].
    cbn [map]. by rewrite list_ascii_of_string_of_list_ascii, IH.
Qed.

Lemma latin1_lower s :
  @lower latin1 (list_ascii_of_string s) = list_ascii_of_string (PyStr.lower s).
Proof.
  induction s as [|c s IH]; [reflexivity|].
  cbn [list_ascii_of_string PyStr.lower]. cbn in *. by rewrite IH.
Qed.

(** On 8-bit text the tokenizer over the alphabet [latin1] and the
    tokenizer of [Tokenizer] return the same tokens. *)
Lemma latin1_tokenized sentences :
  @tokenized_sentences latin1 (map list_ascii_of_string sentences)
  = map (map list_ascii_of_string) (Tokenizer.tokenized_sentences sentences).
Proof.
  unfold tokenized_sentences, Tokenizer.tokenized_sentences, split, PyStr.split.
  rewrite !map_map. apply map_ext. intros s.
  by rewrite latin1_lower, latin1_split_scan.
Qed.

(** *** The two alphabets meet what [lower] is taken to guarantee *)

Lemma lower_char_idempotent c :
  PyStr.lower_char (PyStr.lower_char c) = PyStr.lower_char c.
Proof. apply PyStrFacts.lower_char_fixed, PyStrFacts.isupper_lower_char. Qed.

Lemma map_fixed_by_image {X} (f : X -> X) (s w : list X) :
  (forall x, f (f x) = f x) ->
  (forall c, c ∈ w -> c ∈ map f s) -> map f w = w.
Proof.
  intros Hidem Hin. induction w as [|c w IH]; [reflexivity|].
  cbn [map]. rewrite IH by (intros c0 Hc0; apply Hin; by right).
  destruct (proj1 (list_elem_of_fmap f s c) (Hin c (list_elem_of_here _ _)))
    as (y & -> & _).
  by rewrite Hidem.
Qed.

Lemma latin1_contract : @lower_contract latin1.
Proof.
  intros s w Hin. apply (map_fixed_by_image PyStr.lower_char s w);
    [apply lower_char_idempotent | exact Hin].
Qed.

Lemma latin1_and_C_contract : @lower_contract latin1_and_C.
Proof.
  intros s w Hin. apply (map_fixed_by_image lower_letter_or_C s w); [|exact Hin].
  intros [a|]; [|reflexivity]. cbn. by rewrite lower_char_idempotent.
Qed.

(** C9, as stated, fails: the sentence that consists of the character
    U+2102 has that character as its one token, unchanged by [lower()]
    and still counted as uppercase. *)
Lemma token_with_uppercase_character :
  @tokenized_sentences latin1_and_C [[DoubleStruckC]] = [[[DoubleStruckC]]] /\
  ~ Forall (Forall (fun w => @settled_token latin1_and_C w /\
                             @no_uppercase latin1_and_C w))
      (@tokenized_sentences latin1_and_C [[DoubleStruckC]]).
Proof.
  split; [reflexivity|].
  change (@tokenized_sentences latin1_and_C [[DoubleStruckC]])
    with [[[DoubleStruckC : @letter latin1_and_C]]].
  intros Hall. apply Forall_inv, Forall_inv in Hall as [_ Hupper].
  apply Forall_inv in Hupper. discriminate Hupper.
Qed.

(** C9, amended, on a corpus of that alphabet: a sentence with capitals,
    a tab and U+2102 in it. *)
Lemma tokens_and_vocabulary_settled_witness :
  @lower_contract latin1_and_C /\
  Forall (Forall (@settled_token latin1_and_C))
    (@tokenized_sentences latin1_and_C
       [text "Deep Learning	in " ++ [DoubleStruckC] ++ text " AI"]) /\
  Forall (@settled_token latin1_and_C)
    (@vocabulary latin1_and_C
       (@tokenized_sentences latin1_and_C
          [text "Deep Learning	in " ++ [DoubleStruckC] ++ text " AI"])).
Proof.
  split; [exact latin1_and_C_contract|].
  apply (@tokens_and_vocabulary_settled latin1_and_C). exact latin1_and_C_contract.
Defined.

End TextFacts.

(** The whole run with the stand-in libraries and cells. *)
Lemma notebook_run_effects_witness :
  @FullRun.leaves_generator Standin.numpy Standin.setup /\
  @FullRun.leaves_generator Standin.numpy Standin.dotenv /\
  let w := Standin.world_with_credentials in
  let voc := Tokenizer.vocabulary
               (Tokenizer.tokenized_sentences Tokenizer.sentences) in
  let out := @FullRun.notebook_run Standin.numpy Standin.gensim
               Standin.transformers_up Standin.openai
               Standin.setup Standin.dotenv Tokenizer.sentences w in
  Embeddings.stdout w `prefix_of` Embeddings.stdout (snd out) /\
  (Embeddings.generator (snd out) = Embeddings.generator w \/
   Embeddings.generator (snd out)
   = @NpRandom.skip Standin.numpy (10 * length voc) (Embeddings.generator w)) /\
  ((exists u, fst out = inr u) ->
   Embeddings.generator (snd out)
   = @NpRandom.skip Standin.numpy (10 * length voc) (Embeddings.generator w)).
Proof.
  assert (Hsetup : @FullRun.leaves_generator Standin.numpy Standin.setup)
    by (by intros w).
  assert (Hdotenv : @FullRun.leaves_generator Standin.numpy Standin.dotenv)
    by (by intros w).
  split; [exact Hsetup|]. split; [exact Hdotenv|].
  exact (@EmbeddingsLaws.notebook_run_effects Standin.numpy Standin.gensim
           Standin.transformers_up Standin.openai Standin.setup Standin.dotenv
           Tokenizer.sentences Standin.world_with_credentials Hsetup Hdotenv).
Defined.
